(** * CAMeL agreement rules: the MAGOLD synchronizer and the ADJ/MOD pair extractor

    A shallow embedding of [scripts/01_sync_magold_to_conllu.py] and
    [scripts/02_extract_adj_mod_pairs.py], and the properties of the
    specification proved (or refuted) on it.

    Python values are modelled as follows.
    - [str] is a list of Unicode code points ([N]); string built-ins
      ([strip], [split], [join], [startswith], [in]) are list functions.
    - [dict] with string keys whose iteration order is never observed
      (feature maps, MISC maps, the MAGOLD lookup) is a [gmap]; the
      per-sentence [tokens] dict, which is iterated, is an association list
      in insertion order.
    - [int] is [Z]; a raised exception is the [Raised] result.
    - The interpreter's Unicode database, which [\b], [str.isdigit] and
      [int] consult outside ASCII, is a parameter ([UnicodeData]); every
      theorem holds for every database.

    The file has the two scripts first, function by function, then the
    notions derived from them and the example data, then the properties. *)

From Stdlib Require Import ZArith NArith List Lia Bool String Ascii.
From stdpp Require Import gmap list sorting.

Local Open Scope N_scope.

(** ** Python strings *)

Abbreviation str := (list N).

(** A string literal of the source, as code points. *)
Definition lit (s : string) : str :=
  List.map N_of_ascii (list_ascii_of_string s).
Arguments lit s%_string.

(** [Py_UNICODE_ISSPACE]: the characters removed by [str.strip()] and
    matched by the regular expression class [\s]. *)
Definition isspace (c : N) : bool :=
  (N.leb 0x09 c && N.leb c 0x0D) || (N.leb 0x1C c && N.leb c 0x20)
  || N.eqb c 0x85 || N.eqb c 0xA0 || N.eqb c 0x1680
  || (N.leb 0x2000 c && N.leb c 0x200A)
  || N.eqb c 0x2028 || N.eqb c 0x2029 || N.eqb c 0x202F
  || N.eqb c 0x205F || N.eqb c 0x3000.

Fixpoint lstrip_ws (s : str) : str :=
  match s with
  | [] => []
  | c :: r => if isspace c then lstrip_ws r else s
  end.

Definition rstrip_ws (s : str) : str := rev (lstrip_ws (rev s)).

(** [s.strip()] *)
Definition strip (s : str) : str := rstrip_ws (lstrip_ws s).

(** Stripping by another class of characters. *)
Fixpoint lstrip_by (p : N → bool) (s : str) : str :=
  match s with
  | [] => []
  | c :: r => if p c then lstrip_by p r else s
  end.

Definition strip_by (p : N → bool) (s : str) : str :=
  rev (lstrip_by p (rev (lstrip_by p s))).

(** The whitespace [int] skips around a literal: the C locale's inside
    ASCII, [Py_UNICODE_ISSPACE] outside. *)
Definition int_space (c : N) : bool :=
  if N.ltb c 127 then (N.leb 0x09 c && N.leb c 0x0D) || N.eqb c 0x20
  else isspace c.

(** [s.lstrip(ch)] for a one-character argument. *)
Fixpoint lstrip_char (ch : N) (s : str) : str :=
  match s with
  | [] => []
  | c :: r => if N.eqb c ch then lstrip_char ch r else s
  end.

(** [s.split(sep)] for a one-character separator: never the empty list. *)
Fixpoint split_on (sep : N) (s : str) : list str :=
  match s with
  | [] => [[]]
  | c :: r =>
      if N.eqb c sep then [] :: split_on sep r
      else match split_on sep r with
           | w :: ws => (c :: w) :: ws
           | [] => [[c]]
           end
  end.

(** [s.split(sep, 1)]: cut at the first separator only. *)
Fixpoint split_once (sep : N) (s : str) : list str :=
  match s with
  | [] => [[]]
  | c :: r =>
      if N.eqb c sep then [[]; r]
      else match split_once sep r with
           | w :: ws => (c :: w) :: ws
           | [] => [[c]]
           end
  end.

(** [sep.join(parts)] *)
Fixpoint join (sep : str) (parts : list str) : str :=
  match parts with
  | [] => []
  | [p] => p
  | p :: ps => p ++ sep ++ join sep ps
  end.

(** [ch in s] for a one-character [ch]. *)
Definition has_char (ch : N) (s : str) : bool := existsb (N.eqb ch) s.

(** [s.startswith(p)] *)
Fixpoint startswith (p s : str) : bool :=
  match p, s with
  | [], _ => true
  | _ :: _, [] => false
  | a :: p', b :: s' => N.eqb a b && startswith p' s'
  end.

(** Comparison of strings ([<=]), code point by code point, as [sorted] uses it. *)
Fixpoint str_leb (a b : str) : bool :=
  match a, b with
  | [], _ => true
  | _ :: _, [] => false
  | x :: a', y :: b' =>
      if N.ltb x y then true else if N.eqb x y then str_leb a' b' else false
  end.

Definition str_le (a b : str) : Prop := str_leb a b = true.

#[global] Instance str_le_dec a b : Decision (str_le a b).
Proof. unfold str_le. apply _. Defined.

(** [sorted(keys)] *)
Definition sorted (l : list str) : list str := merge_sort str_le l.

Definition tab : N := 0x09.
Definition pipe : N := 0x7C.
Definition equals : N := 0x3D.
Definition plus : N := 0x2B.
Definition slash : N := 0x2F.
Definition hash : N := 0x23.
Definition dash : N := 0x2D.
Definition dot : N := 0x2E.
Definition underscore : N := 0x5F.

(** ** Unicode character data

    [\b] of the regular expression engine, [str.isdigit] and [int] consult
    the interpreter's Unicode database.  Its ASCII part is fixed below; the
    part outside ASCII belongs to the interpreter, not to the repository,
    and is a parameter of the model. *)
Record UnicodeData := {
  u_alnum : N → bool;          (* [str.isalnum] of one character *)
  u_digit : N → bool;          (* [str.isdigit] of one character *)
  u_decimal : N → option Z     (* decimal digit value, if any *)
}.

(** The database with nothing outside ASCII; on pure-ASCII inputs every
    database agrees with it. *)
Definition ascii_data : UnicodeData :=
  {| u_alnum := λ _, false; u_digit := λ _, false; u_decimal := λ _, None |}.

Definition is_ascii_digit (c : N) : bool := N.leb 0x30 c && N.leb c 0x39.
Definition is_ascii_alpha (c : N) : bool :=
  (N.leb 0x41 c && N.leb c 0x5A) || (N.leb 0x61 c && N.leb c 0x7A).

Section Unicode.
Variable ud : UnicodeData.

(** [\w]: alphanumeric or underscore. *)
Definition is_word (c : N) : bool :=
  if N.ltb c 128 then is_ascii_alpha c || is_ascii_digit c || N.eqb c underscore
  else u_alnum ud c.

Definition isdigit_char (c : N) : bool :=
  if N.ltb c 128 then is_ascii_digit c else u_digit ud c.

(** [s.isdigit()]: non-empty and every character a digit. *)
Definition isdigit (s : str) : bool :=
  match s with [] => false | _ => forallb isdigit_char s end.

(** The value of a character inside [int(s)]: ASCII digits, and, outside
    ASCII, decimal digits that are not whitespace. *)
Definition decimal_value (c : N) : option Z :=
  if N.ltb c 128 then (if is_ascii_digit c then Some (Z.of_N c - 48)%Z else None)
  else if isspace c then None
  else u_decimal ud c.

(** Digits of an [int] literal, most significant first; one underscore is
    allowed between two digits.  [after_digit] tells whether the previous
    character was a digit. *)
Fixpoint int_digits (acc : Z) (after_digit : bool) (s : str) : option Z :=
  match s with
  | [] => if after_digit then Some acc else None
  | c :: r =>
      if N.eqb c underscore then
        (if after_digit then
           match r with
           | [] => None
           | _ => int_digits acc false r
           end
         else None)
      else match decimal_value c with
           | Some d => int_digits (10 * acc + d)%Z true r
           | None => None
           end
  end.

(** [int(s)]: [None] stands for [ValueError].  The literal is read at any
    length: the interpreter's cap on the number of digits of a decimal
    literal (4300 by default from CPython 3.11 on, a [ValueError] beyond
    it) is not part of this model, which is the behaviour with the cap
    switched off and that of any run whose numbers stay below it. *)
Definition py_int (s : str) : option Z :=
  match strip_by int_space s with
  | c :: r =>
      if N.eqb c plus then int_digits 0 false r
      else if N.eqb c dash then Z.opp <$> int_digits 0 false r
      else int_digits 0 false (c :: r)
  | [] => None
  end.
End Unicode.

(** [str(n)] of a non-negative integer. *)
Fixpoint digits_of_pos (fuel : nat) (n : N) (acc : str) : str :=
  match fuel with
  | O => acc
  | S f =>
      let acc' := (0x30 + n mod 10) :: acc in
      if N.ltb n 10 then acc' else digits_of_pos f (n / 10) acc'
  end.

Definition py_str_of_int (z : Z) : str :=
  match z with
  | Zneg p => dash :: digits_of_pos (S (N.to_nat (N.log2 (Npos p)))) (Npos p) []
  | _ => let n := Z.to_N z in digits_of_pos (S (N.to_nat (N.log2 n))) n []
  end.

Local Close Scope N_scope.

(** Truth value of an [Optional[str]]: [None] and the empty string are false. *)
Definition truthy (o : option str) : bool :=
  match o with
  | Some (_ :: _) => true
  | _ => false
  end.

(** ** [scripts/01_sync_magold_to_conllu.py] *)
Module Sync.

(** The body of the [for part in feats.split("|")] loop. *)
Definition add_part (d : gmap str str) (part : str) : gmap str str :=
  if has_char equals part then
    match split_once equals part with
    | [k; v] => <[k := v]> d
    | _ => d
    end
  else d.

Definition parse_feats (feats : str) : gmap str str :=
  let feats := strip feats in
  if bool_decide (feats = []) || bool_decide (feats = lit "_") then ∅
  else fold_left add_part (split_on pipe feats) ∅.

Definition format_feats (d : gmap str str) : str :=
  if bool_decide (d = ∅) then lit "_"
  else join (lit "|")
         ((λ k, k ++ lit "=" ++ d !!! k) <$> sorted ((map_to_list d).*1)).

Definition parse_misc (misc : str) : gmap str str :=
  let misc := strip misc in
  if bool_decide (misc = []) || bool_decide (misc = lit "_") then ∅
  else fold_left add_part (split_on pipe misc) ∅.

(** *** MAGOLD parsing *)

(** The capture group [([^\s]+)], read greedily. *)
Fixpoint nonspace_run (s : str) : str :=
  match s with
  | [] => []
  | c :: r => if isspace c then [] else c :: nonspace_run r
  end.

Section Magold.
Variable ud : UnicodeData.

(** An attempt to match [\bKEY:([^\s]+)] at one position; [prev] is the
    character before that position. *)
Definition match_here (key : str) (prev : option N) (s : str) : option str :=
  let before := match prev with Some c => is_word ud c | None => false end in
  let here := match s with c :: _ => is_word ud c | [] => false end in
  if xorb before here && startswith (key ++ lit ":") s then
    match nonspace_run (drop (length key + 1) s) with
    | [] => None
    | g => Some g
    end
  else None.

(** [re.search]: the leftmost position where the pattern matches. *)
Fixpoint search_from (key : str) (prev : option N) (s : str) {struct s}
  : option str :=
  match match_here key prev s with
  | Some g => Some g
  | None =>
      match s with
      | [] => None
      | c :: r => search_from key (Some c) r
      end
  end.

Definition extract_field (line key : str) : option str :=
  search_from key None line.

(** [x in (None, "na")] *)
Definition unusable (x : option str) : bool :=
  match x with
  | None => true
  | Some v => bool_decide (v = lit "na")
  end.

(** The body of the loop of [build_magold_lookup], for one line. *)
Definition lookup_step (lookup : gmap str (str * str * str)) (line : str)
  : gmap str (str * str * str) :=
  let line := strip line in
  if bool_decide (line = []) || negb (startswith (lit "*") line) then lookup
  else
    let gen := extract_field line (lit "gen") in
    let num := extract_field line (lit "num") in
    let rat := extract_field line (lit "rat") in
    let diac := extract_field line (lit "diac") in
    let bw_full := extract_field line (lit "bw") in
    let bw_tok :=
      if truthy bw_full then
        match bw_full with
        | Some b => Some (lstrip_char plus (hd [] (split_once slash b)))
        | None => None
        end
      else None in
    if unusable gen || unusable num || unusable rat then lookup
    else
      match gen, num, rat with
      | Some g, Some n, Some r =>
          let val := (g, n, r) in
          let lookup := if truthy diac
                        then match diac with
                             | Some d => <[d := val]> lookup
                             | None => lookup
                             end
                        else lookup in
          if truthy bw_tok
          then match bw_tok with
               | Some t => <[t := val]> lookup
               | None => lookup
               end
          else lookup
      | _, _, _ => lookup
      end.

(** [build_magold_lookup], from the lines of the MAGOLD file. *)
Definition build_magold_lookup (lines : list str) : gmap str (str * str * str) :=
  fold_left lookup_step lines ∅.
End Magold.

(** *** Sync logic *)

Definition choose_conllu_key (misc : gmap str str) : option str :=
  if bool_decide (is_Some (misc !! lit "surface_plus_bw"))
  then misc !! lit "surface_plus_bw"
  else if bool_decide (is_Some (misc !! lit "surface_form_bw"))
  then misc !! lit "surface_form_bw"
  else None.

(** The loop state of [sync_conllu_with_magold], which is also its result. *)
Record sync_state := SyncState {
  out : list str;
  matched : nat;
  updated : nat;
  debug_hits : list str
}.

Definition debug_targets : list str :=
  [lit "m$Akl"; lit "ma$Akila"; lit "ma$Akil"].

(** [out.append(ln)] *)
Definition emit (ln : str) (st : sync_state) : sync_state :=
  {| out := out st ++ [ln]; matched := matched st;
     updated := updated st; debug_hits := debug_hits st |}.

(** [debug_hits.append(msg)] *)
Definition note (msg : str) (st : sync_state) : sync_state :=
  {| out := out st; matched := matched st;
     updated := updated st; debug_hits := debug_hits st ++ [msg] |}.

(** The three conditional assignments to [feats]; the flag is [changed]. *)
Definition merge_triple (feats : gmap str str) (mag_val : str * str * str)
  : gmap str str * bool :=
  let '(new_gen, new_num, new_rat) := mag_val in
  let changed := false in
  let '(feats, changed) :=
    if bool_decide (feats !! lit "gen" ≠ Some new_gen)
    then (<[lit "gen" := new_gen]> feats, true) else (feats, changed) in
  let '(feats, changed) :=
    if bool_decide (feats !! lit "num" ≠ Some new_num)
    then (<[lit "num" := new_num]> feats, true) else (feats, changed) in
  let '(feats, changed) :=
    if bool_decide (feats !! lit "rat" ≠ Some new_rat)
    then (<[lit "rat" := new_rat]> feats, true) else (feats, changed) in
  (feats, changed).

(** The body of the [for ln in conllu_lines] loop. *)
Definition sync_step (mag_lookup : gmap str (str * str * str))
    (st : sync_state) (ln : str) : sync_state :=
  if bool_decide (strip ln = []) || startswith (lit "#") ln then emit ln st
  else
    let cols := split_on tab ln in
    if length cols <? 10 then emit ln st
    else
      let feats_str := cols !!! 5 in
      let misc_str := cols !!! 9 in
      let feats := parse_feats feats_str in
      let misc := parse_misc misc_str in
      let key := choose_conllu_key misc in
      let st :=
        if truthy key && bool_decide (default [] key ∈ debug_targets)
        then note (lit "[CONLLU] key=" ++ default [] key ++ lit " feats_before="
                   ++ feats_str ++ lit " misc=" ++ misc_str) st
        else st in
      if negb (truthy key) then emit ln st
      else
        let key := default [] key in
        match mag_lookup !! key with
        | None => emit ln st
        | Some mag_val =>
            let st := {| out := out st; matched := S (matched st);
                         updated := updated st; debug_hits := debug_hits st |} in
            let '(feats, changed) := merge_triple feats mag_val in
            if changed then
              let st := {| out := out st; matched := matched st;
                           updated := S (updated st);
                           debug_hits := debug_hits st |} in
              let cols := <[5 := format_feats feats]> cols in
              let new_ln := join [tab] cols in
              let st := emit new_ln st in
              if bool_decide (key ∈ debug_targets)
              then note (lit "[UPDATED] key=" ++ key ++ lit " feats_after="
                         ++ cols !!! 5) st
              else st
            else emit ln st
        end.

Definition sync_conllu_with_magold (conllu_lines : list str)
    (mag_lookup : gmap str (str * str * str)) : sync_state :=
  fold_left (sync_step mag_lookup) conllu_lines
    {| out := []; matched := 0; updated := 0; debug_hits := [] |}.

End Sync.

(** A computation that may raise ([ValueError] of [int]). *)
Inductive result (A : Type) : Type :=
| Raised : result A
| Ok : A → result A.
Arguments Raised {A}.
Arguments Ok {A} _.

#[global] Instance result_bind : MBind result := λ A B k r,
  match r with
  | Raised => Raised
  | Ok a => k a
  end.

Definition of_option {A} (o : option A) : result A :=
  match o with
  | Some a => Ok a
  | None => Raised
  end.

(** A [dict] with integer keys in insertion order: [d[k] = v] replaces the
    value of a key that is present and keeps its position. *)
Fixpoint dict_set {V} (k : Z) (v : V) (d : list (Z * V)) : list (Z * V) :=
  match d with
  | [] => [(k, v)]
  | (k', v') :: r => if Z.eqb k k' then (k', v) :: r else (k', v') :: dict_set k v r
  end.

(** [d.get(k)] *)
Fixpoint dict_get {V} (k : Z) (d : list (Z * V)) : option V :=
  match d with
  | [] => None
  | (k', v') :: r => if Z.eqb k k' then Some v' else dict_get k r
  end.

(** ** [scripts/02_extract_adj_mod_pairs.py] *)
Module Pairs.

Definition add_part (out : gmap str str) (part : str) : gmap str str :=
  if has_char equals part then
    match split_once equals part with
    | [k; v] => <[k := v]> out
    | _ => out
    end
  else out.

Definition parse_misc (misc : str) : gmap str str :=
  let misc := strip misc in
  if bool_decide (misc = []) || bool_decide (misc = lit "_") then ∅
  else fold_left add_part (split_on pipe misc) ∅.

Definition parse_feats (feats : str) : gmap str str :=
  let feats := strip feats in
  if bool_decide (feats = []) || bool_decide (feats = lit "_") then ∅
  else fold_left add_part (split_on pipe feats) ∅.

Definition is_adj_token (upos xpos : str) (misc : gmap str str) : bool :=
  let bw := default [] (misc !! lit "bw") in
  let mada := default [] (misc !! lit "mada") in
  let kulick := default [] (misc !! lit "kulick") in
  if startswith (lit "ADJ") bw then true
  else if bool_decide (mada = lit "adj") then true
  else if bool_decide (kulick = lit "JJ") then true
  else if bool_decide (lit "ADJ" ∈ split_on plus bw) then true
  else false.

Definition is_noun_like (misc : gmap str str) (upos xpos : str) : bool :=
  let bw := default [] (misc !! lit "bw") in
  let mada := default [] (misc !! lit "mada") in
  if startswith (lit "NOUN") bw then true
  else if bool_decide (mada = lit "noun") then true
  else false.

(** The loop of [read_conllu_sentences] over the lines of the file, with
    its state [(sentences, cur)]. *)
Definition sentence_step (st : list (list str) * list str) (line : str)
  : list (list str) * list str :=
  let '(sentences, cur) := st in
  if bool_decide (strip line = []) then
    match cur with
    | [] => (sentences, cur)
    | _ => (sentences ++ [cur], [])
    end
  else (sentences, cur ++ [line]).

Definition read_conllu_sentences (lines : list str) : list (list str) :=
  let '(sentences, cur) := fold_left sentence_step lines ([], []) in
  match cur with
  | [] => sentences
  | _ => sentences ++ [cur]
  end.

(** The dictionary returned by [parse_token_line]; [feats] and [misc] are
    the two entries [main] adds to it. *)
Record Token := {
  t_id : Z;
  t_form : str;
  t_lemma : str;
  t_upos : str;
  t_xpos : str;
  t_feats_raw : str;
  t_head : Z;
  t_deprel : str;
  t_deps : str;
  t_misc_raw : str;
  t_feats : gmap str str;
  t_misc : gmap str str
}.

Record Row := {
  sent_idx : str;
  adj_id : str;
  adj_form : str;
  adj_lemma : str;
  adj_feats : str;
  adj_misc : str;
  head_id : str;
  head_form : str;
  head_lemma : str;
  head_feats : str;
  head_misc : str;
  deprel : str
}.

Section Extract.
Variable ud : UnicodeData.

(** [Ok None] is the [None] result; [Raised] is the [ValueError] of
    [int].  The entries [feats] and [misc] are still empty here. *)
Definition parse_token_line (line : str) : result (option Token) :=
  if startswith (lit "#") line then Ok None
  else
    let cols := split_on tab line in
    if length cols <? 10 then Ok None
    else
      let tok_id := cols !!! 0 in
      if has_char dash tok_id || has_char dot tok_id then Ok None
      else
        id ← of_option (py_int ud tok_id);
        head ← (if isdigit ud (cols !!! 6)
                then of_option (py_int ud (cols !!! 6)) else Ok 0%Z);
        Ok (Some {| t_id := id; t_form := cols !!! 1; t_lemma := cols !!! 2;
                    t_upos := cols !!! 3; t_xpos := cols !!! 4;
                    t_feats_raw := cols !!! 5; t_head := head;
                    t_deprel := cols !!! 7; t_deps := cols !!! 8;
                    t_misc_raw := cols !!! 9;
                    t_feats := ∅; t_misc := ∅ |}).

(** [t["feats"] = ...; t["misc"] = ...] *)
Definition with_maps (t : Token) : Token :=
  {| t_id := t_id t; t_form := t_form t; t_lemma := t_lemma t;
     t_upos := t_upos t; t_xpos := t_xpos t; t_feats_raw := t_feats_raw t;
     t_head := t_head t; t_deprel := t_deprel t; t_deps := t_deps t;
     t_misc_raw := t_misc_raw t;
     t_feats := parse_feats (t_feats_raw t);
     t_misc := parse_misc (t_misc_raw t) |}.

(** The first inner loop of [main]: the [tokens] dict of one sentence. *)
Definition token_step (tokens : result (list (Z * Token))) (ln : str)
  : result (list (Z * Token)) :=
  tokens ← tokens;
  t ← parse_token_line ln;
  match t with
  | None => Ok tokens
  | Some t => let t := with_maps t in Ok (dict_set (t_id t) t tokens)
  end.

Definition sentence_tokens (sent_lines : list str) : result (list (Z * Token)) :=
  fold_left token_step sent_lines (Ok []).

(** The body of the second inner loop: the row of one dependent, if any. *)
Definition pair_of (sent_i : Z) (tokens : list (Z * Token))
    (dep_id : Z) (dep : Token) : option Row :=
  if negb (bool_decide (t_deprel dep = lit "MOD")) then None
  else if negb (is_adj_token (t_upos dep) (t_xpos dep) (t_misc dep)) then None
  else
    let head_id := t_head dep in
    match dict_get head_id tokens with
    | None => None
    | Some head =>
        if negb (is_noun_like (t_misc head) (t_upos head) (t_xpos head)) then None
        else Some {| sent_idx := py_str_of_int sent_i;
                     adj_id := py_str_of_int dep_id;
                     adj_form := t_form dep;
                     adj_lemma := t_lemma dep;
                     adj_feats := t_feats_raw dep;
                     adj_misc := t_misc_raw dep;
                     head_id := py_str_of_int head_id;
                     head_form := t_form head;
                     head_lemma := t_lemma head;
                     head_feats := t_feats_raw head;
                     head_misc := t_misc_raw head;
                     deprel := t_deprel dep |}
    end.

Definition sentence_rows (sent_i : Z) (tokens : list (Z * Token)) : list Row :=
  omap (λ '(dep_id, dep), pair_of sent_i tokens dep_id dep) tokens.

(** The outer loop of [main] over [enumerate(sents, start=1)], with its
    state [(sent_i, rows)]. *)
Definition rows_step (st : result (Z * list Row)) (sent_lines : list str)
  : result (Z * list Row) :=
  '(sent_i, rows) ← st;
  tokens ← sentence_tokens sent_lines;
  Ok ((sent_i + 1)%Z, rows ++ sentence_rows sent_i tokens).

Definition extract_rows (sents : list (list str)) : result (list Row) :=
  '(_, rows) ← fold_left rows_step sents (Ok (1%Z, []));
  Ok rows.

(** [main], from the lines of the input file to the rows it writes. *)
Definition main (lines : list str) : result (list Row) :=
  extract_rows (read_conllu_sentences lines).
End Extract.

End Pairs.

(** ** The entry points and the files they read and write *)

(** The line boundaries of [str.splitlines]. *)
Definition is_linebreak (c : N) : bool :=
  (N.leb 0x0A c && N.leb c 0x0D)%N || (N.leb 0x1C c && N.leb c 0x1E)%N
  || N.eqb c 0x85 || N.eqb c 0x2028 || N.eqb c 0x2029.

(** [text.splitlines()]: the lines without their ends; "\r\n" is one
    boundary, and a boundary at the very end opens no further line. *)
Fixpoint splitlines (text : str) : list str :=
  match text with
  | [] => []
  | c :: r =>
      if N.eqb c 0x0D then
        [] :: match r with
              | c' :: r' => if N.eqb c' 0x0A then splitlines r' else splitlines r
              | [] => []
              end
      else if is_linebreak c then [] :: splitlines r
      else match splitlines r with
           | [] => [[c]]
           | w :: ws => (c :: w) :: ws
           end
  end.

(** [read_conllu_lines], from the text of the file. *)
Definition read_conllu_lines (text : str) : list str := splitlines text.

(** The two input files of the first script. *)
Inductive input_file : Type := CONLLU_IN | MAGOLD_IN.

(** What a run of [main] of [01_sync_magold_to_conllu.py] leaves behind:
    the text written to [CONLLU_OUT] and the figures it prints. *)
Record sync_run := SyncRun {
  written : str;
  lookup_size : nat;
  run_matched : nat;
  run_updated : nat;
  run_debug : list str
}.

(** [main] of the first script.  A file is the text [read_text] gives for
    it (decoded, line ends as text mode hands them over), or [None] when
    it does not exist; [inl p] is the [FileNotFoundError] for [p]. *)
Definition sync_main (ud : UnicodeData) (conllu_in magold_in : option str)
  : input_file + sync_run :=
  match conllu_in, magold_in with
  | None, _ => inl CONLLU_IN
  | Some _, None => inl MAGOLD_IN
  | Some conllu_text, Some magold_text =>
      let conllu_lines := read_conllu_lines conllu_text in
      let mag_lookup := Sync.build_magold_lookup ud (splitlines magold_text) in
      let r := Sync.sync_conllu_with_magold conllu_lines mag_lookup in
      inr {| written := join [0x0A%N] (Sync.out r) ++ [0x0A%N];
             lookup_size := size mag_lookup;
             run_matched := Sync.matched r;
             run_updated := Sync.updated r;
             run_debug := Sync.debug_hits r |}
  end.

(** [main] of the second script up to the rows it hands to the CSV writer:
    [None] is the [FileNotFoundError], [Some Raised] the [ValueError]. *)
Definition pairs_main (ud : UnicodeData) (conllu_in : option str)
  : option (result (list Pairs.Row)) :=
  match conllu_in with
  | None => None
  | Some text => Some (Pairs.main ud (splitlines text))
  end.

(** * Derived notions *)

(** The lookup key and the MAGOLD triple with which a line gets past the
    guards of the loop body (to [matched += 1]); [None] for a line that is
    passed through: blank, comment, short, without key, or not in the lookup. *)
Definition resolved (mag_lookup : gmap str (str * str * str)) (ln : str)
  : option (str * (str * str * str)) :=
  if bool_decide (strip ln = []) || startswith (lit "#") ln then None
  else
    let cols := split_on tab ln in
    if length cols <? 10 then None
    else
      let key := Sync.choose_conllu_key (Sync.parse_misc (cols !!! 9)) in
      if negb (truthy key) then None
      else (λ v, (default [] key, v)) <$> mag_lookup !! default [] key.

(** The feature map the loop body holds for a line when it is done with it. *)
Definition synced_feats (mag_lookup : gmap str (str * str * str)) (ln : str)
  : gmap str str :=
  let feats := Sync.parse_feats (split_on tab ln !!! 5) in
  match resolved mag_lookup ln with
  | Some (_, v) => (Sync.merge_triple feats v).1
  | None => feats
  end.

(** Whether the loop body counts the line as updated. *)
Definition line_changed (mag_lookup : gmap str (str * str * str)) (ln : str) : bool :=
  match resolved mag_lookup ln with
  | Some (_, v) => (Sync.merge_triple (Sync.parse_feats (split_on tab ln !!! 5)) v).2
  | None => false
  end.

(** The line the loop body appends to [out]. *)
Definition line_out (mag_lookup : gmap str (str * str * str)) (ln : str) : str :=
  if line_changed mag_lookup ln
  then join [tab] (<[5 := Sync.format_feats (synced_feats mag_lookup ln)]> (split_on tab ln))
  else ln.

(** A flag as the amount it adds to a counter. *)
Definition b2n (b : bool) : nat := if b then 1 else 0.

(** The transliterated-form key as the specification words it: the part
    of the bw value before its first "/", with one leading "+" stripped if
    present. *)
Definition spec_bw_key (bw : str) : str :=
  match hd [] (split_once slash bw) with
  | c :: r => if N.eqb c plus then r else c :: r
  | [] => []
  end.

(** One entry [k=v], and the entries joined by "|". *)
Definition kv (e : str * str) : str := e.1 ++ equals :: e.2.

Definition encode (kvs : list (str * str)) : str := join [pipe] (kv <$> kvs).

(** What [strip] does to an encoded list: it eats into the first key and
    into the last value only. *)
Definition strip_first (kvs : list (str * str)) : list (str * str) :=
  match kvs with
  | [] => []
  | e :: r => (lstrip_ws e.1, e.2) :: r
  end.

Fixpoint strip_last (kvs : list (str * str)) : list (str * str) :=
  match kvs with
  | [] => []
  | [e] => [(e.1, rstrip_ws e.2)]
  | e :: r => e :: strip_last r
  end.

(** [d[k] = v] *)
Definition put (m : gmap str str) (e : str * str) : gmap str str := <[e.1 := e.2]> m.

(** An entry that survives a round through the codec's delimiters. *)
Definition wf_entry (e : str * str) : Prop :=
  has_char pipe e.1 = false ∧ has_char equals e.1 = false ∧ has_char pipe e.2 = false.

(** The entries [format_feats] writes, in the order it writes them. *)
Definition entries (d : gmap str str) : list (str * str) :=
  (λ k, (k, d !!! k)) <$> sorted ((map_to_list d).*1).

(** A condition on all three values of every triple of the lookup. *)
Definition lookup_values (P : str → Prop) (lookup : gmap str (str * str * str)) : Prop :=
  ∀ key g n r, lookup !! key = Some (g, n, r) → P g ∧ P n ∧ P r.

(** A value that the feature column can carry and give back: no "|" and no
    whitespace (so no tab either). *)
Definition clean (v : str) : Prop :=
  has_char pipe v = false ∧ ∀ c, c ∈ v → isspace c = false.

(** The debug notes the loop body adds for a line. *)
Definition line_notes (mag_lookup : gmap str (str * str * str)) (ln : str) : list str :=
  Sync.debug_hits
    (Sync.sync_step mag_lookup
       {| Sync.out := []; Sync.matched := 0; Sync.updated := 0; Sync.debug_hits := [] |}
       ln).

(** A value the builder accepts for gender, number or rationality. *)
Definition usable_value (x : str) : Prop :=
  x ≠ [] ∧ x ≠ lit "na" ∧ ∀ c, c ∈ x → isspace c = false.

(** An entry as the builder stores it. *)
Definition built_entry (key : str) (v : str * str * str) : Prop :=
  key ≠ [] ∧ (∀ c, c ∈ key → isspace c = false)
  ∧ usable_value v.1.1 ∧ usable_value v.1.2 ∧ usable_value v.2.

(** The [tokens] dict in the making: distinct keys, every token stored
    under its own id with its two maps parsed from its raw columns. *)
Definition tokens_ok (tokens : list (Z * Pairs.Token)) : Prop :=
  NoDup tokens.*1
  ∧ ∀ k t, (k, t) ∈ tokens →
           Pairs.t_id t = k
           ∧ Pairs.t_feats t = Pairs.parse_feats (Pairs.t_feats_raw t)
           ∧ Pairs.t_misc t = Pairs.parse_misc (Pairs.t_misc_raw t).

(** * Example data

    The lines and the lookup of the end-to-end example of the specification,
    and variations of them. *)

(** A line of the tabular tree, from its columns. *)
Definition tsv (cols : list str) : str := join [tab] cols.

Definition ex_lookup : gmap str (str * str * str) :=
  {[ lit "XYZ" := (lit "f", lit "p", lit "i") ]}.

Definition ex_line_stale : str :=
  tsv [lit "1"; lit "ABC"; lit "lemma1"; lit "NOM"; lit "NOM"; lit "gen=m|num=s";
       lit "2"; lit "MOD"; lit "_"; lit "surface_plus_bw=XYZ"].

Definition ex_line_synced : str :=
  tsv [lit "1"; lit "ABC"; lit "lemma1"; lit "NOM"; lit "NOM"; lit "gen=f|num=p|rat=i";
       lit "2"; lit "MOD"; lit "_"; lit "surface_plus_bw=XYZ"].

Definition ex_misc_both : gmap str str :=
  <[lit "surface_form_bw" := lit "B"]> {[ lit "surface_plus_bw" := lit "A" ]}.

Definition ex_lookup_empty_key : gmap str (str * str * str) :=
  {[ [] := (lit "f", lit "p", lit "i") ]}.

Definition ex_line_empty_key : str :=
  tsv [lit "1"; lit "ABC"; lit "lemma1"; lit "NOM"; lit "NOM"; lit "gen=f|num=p|rat=i";
       lit "2"; lit "MOD"; lit "_"; lit "surface_plus_bw="].

Definition ex_adj_line : str :=
  tsv [lit "1"; lit "ABC"; lit "lemma1"; lit "NOM"; lit "NOM"; lit "gen=f|num=p|rat=i";
       lit "2"; lit "MOD"; lit "_"; lit "bw=ADJ"].

Definition ex_noun_line : str :=
  tsv [lit "2"; lit "DEF"; lit "lemma2"; lit "NOM"; lit "NOM"; lit "_";
       lit "0"; lit "ROOT"; lit "_"; lit "bw=NOUN_head"].

Definition ex_row : Pairs.Row :=
  {| Pairs.sent_idx := lit "1";
     Pairs.adj_id := lit "1"; Pairs.adj_form := lit "ABC";
     Pairs.adj_lemma := lit "lemma1"; Pairs.adj_feats := lit "gen=f|num=p|rat=i";
     Pairs.adj_misc := lit "bw=ADJ";
     Pairs.head_id := lit "2"; Pairs.head_form := lit "DEF";
     Pairs.head_lemma := lit "lemma2"; Pairs.head_feats := lit "_";
     Pairs.head_misc := lit "bw=NOUN_head";
     Pairs.deprel := lit "MOD" |}.

(** A sentence in which a token line carries the id 0. *)
Definition ex_zero_line : str :=
  tsv [lit "0"; lit "N"; lit "_"; lit "_"; lit "_"; lit "_";
       lit "_"; lit "root"; lit "_"; lit "bw=NOUN"].

Definition ex_headless_line : str :=
  tsv [lit "1"; lit "A"; lit "_"; lit "_"; lit "_"; lit "_";
       lit "_"; lit "MOD"; lit "_"; lit "bw=ADJ"].

Definition ex_zero_row : Pairs.Row :=
  {| Pairs.sent_idx := lit "1";
     Pairs.adj_id := lit "1"; Pairs.adj_form := lit "A";
     Pairs.adj_lemma := lit "_"; Pairs.adj_feats := lit "_";
     Pairs.adj_misc := lit "bw=ADJ";
     Pairs.head_id := lit "0"; Pairs.head_form := lit "N";
     Pairs.head_lemma := lit "_"; Pairs.head_feats := lit "_";
     Pairs.head_misc := lit "bw=NOUN";
     Pairs.deprel := lit "MOD" |}.

Definition ex_mwt_line : str :=
  tsv [lit "1-2"; lit "AB"; lit "_"; lit "_"; lit "_"; lit "gen=m|num=s";
       lit "_"; lit "_"; lit "_"; lit "surface_plus_bw=XYZ"].

Definition ex_mwt_line_rewritten : str :=
  tsv [lit "1-2"; lit "AB"; lit "_"; lit "_"; lit "_"; lit "gen=f|num=p|rat=i";
       lit "_"; lit "_"; lit "_"; lit "surface_plus_bw=XYZ"].

Definition ex_magold_line : str := lit "*1.0 diac:XYZ bw:ADJ/XYZ+a gen:f num:p rat:i".

Definition ex_magold_plus_line : str := lit "*1.0 bw:++ab/NOUN gen:f num:s rat:i".

Definition ex_feats_pipe : gmap str str := {[ lit "a|b" := lit "c" ]}.

Definition ex_feats_space : gmap str str := {[ lit " a" := lit "b" ]}.

Definition ex_feats : gmap str str :=
  <[lit "rat" := lit "i"]> (<[lit "num" := lit "p"]> {[ lit "gen" := lit "f" ]}).

Definition ex_lookup_tab : gmap str (str * str * str) :=
  {[ lit "XYZ" := (lit "f" ++ [tab] ++ lit "x", lit "p", lit "i") ]}.

(** A lookup as the builder makes it from an analysis line whose gender
    value holds a "|". *)
Definition ex_magold_pipe_line : str := lit "*1.0 diac:XYZ gen:f|x num:p rat:i".

Definition ex_lookup_pipe : gmap str (str * str * str) :=
  Sync.build_magold_lookup ascii_data [ex_magold_pipe_line].

Definition ex_lookup_space : gmap str (str * str * str) :=
  {[ lit "XYZ" := (lit "f", lit "p", lit "i ") ]}.

(** A comment line that otherwise looks like a token line of the lookup. *)
Definition ex_comment_line : str :=
  tsv [lit "# 1"; lit "ABC"; lit "lemma1"; lit "NOM"; lit "NOM"; lit "gen=m|num=s";
       lit "2"; lit "MOD"; lit "_"; lit "surface_plus_bw=XYZ"].

Definition ex_magold_form_line : str := lit "*1.0 diac:XYZ form_gen:m gen:na num:p rat:i".

(** A line with a feature besides gender, and what the clean lookup makes
    of it. *)
Definition ex_line_case : str :=
  tsv [lit "1"; lit "ABC"; lit "lemma1"; lit "NOM"; lit "NOM"; lit "case=nom|gen=m";
       lit "2"; lit "MOD"; lit "_"; lit "surface_plus_bw=XYZ"].

Definition ex_line_case_synced : str :=
  tsv [lit "1"; lit "ABC"; lit "lemma1"; lit "NOM"; lit "NOM";
       lit "case=nom|gen=f|num=p|rat=i";
       lit "2"; lit "MOD"; lit "_"; lit "surface_plus_bw=XYZ"].

(** An analysis line whose gender value carries two more features, the
    lookup built from it, and what it makes of [ex_line_case]. *)
Definition ex_magold_feats_line : str :=
  lit "*1.0 diac:XYZ gen:f|case=acc|zzz=1 num:p rat:i".

Definition ex_lookup_feats : gmap str (str * str * str) :=
  Sync.build_magold_lookup ascii_data [ex_magold_feats_line].

Definition ex_line_case_merged : str :=
  tsv [lit "1"; lit "ABC"; lit "lemma1"; lit "NOM"; lit "NOM";
       lit "case=nom|gen=f|case=acc|zzz=1|num=p|rat=i";
       lit "2"; lit "MOD"; lit "_"; lit "surface_plus_bw=XYZ"].

(** A line with a feature name that starts with a space, and what the
    clean lookup makes of it. *)
Definition ex_line_space : str :=
  tsv [lit "1"; lit "ABC"; lit "lemma1"; lit "NOM"; lit "NOM"; lit "x=1| b=2";
       lit "2"; lit "MOD"; lit "_"; lit "surface_plus_bw=XYZ"].

Definition ex_line_space_merged : str :=
  tsv [lit "1"; lit "ABC"; lit "lemma1"; lit "NOM"; lit "NOM";
       lit " b=2|gen=f|num=p|rat=i|x=1";
       lit "2"; lit "MOD"; lit "_"; lit "surface_plus_bw=XYZ"].

(** A token as [parse_token_line] returns it, from the columns that matter
    in the examples. *)
Definition ex_token (id : Z) (form lemma tag feats : str) (head : Z) (deprel misc : str)
  : Pairs.Token :=
  {| Pairs.t_id := id; Pairs.t_form := form; Pairs.t_lemma := lemma;
     Pairs.t_upos := tag; Pairs.t_xpos := tag; Pairs.t_feats_raw := feats;
     Pairs.t_head := head; Pairs.t_deprel := deprel; Pairs.t_deps := lit "_";
     Pairs.t_misc_raw := misc; Pairs.t_feats := ∅; Pairs.t_misc := ∅ |}.

(** * Properties *)

(** ** Strings: membership, [split], [join] *)

Lemma has_char_cons ch c s :
  has_char ch (c :: s) = N.eqb ch c || has_char ch s.
Proof. reflexivity. Qed.

Lemma has_char_app ch a b :
  has_char ch (a ++ b) = has_char ch a || has_char ch b.
Proof. unfold has_char. apply existsb_app. Qed.

Lemma has_char_false ch s : has_char ch s = false ↔ ch ∉ s.
Proof.
  induction s as [|c s IH]; simpl.
  - split; [intros _; apply not_elem_of_nil | done].
  - rewrite orb_false_iff, IH, not_elem_of_cons, N.eqb_neq. tauto.
Qed.

Lemma has_char_true ch s : has_char ch s = true ↔ ch ∈ s.
Proof.
  destruct (has_char ch s) eqn:E.
  - split; [intros _|done]. destruct (decide (ch ∈ s)) as [|Hn]; [done|].
    apply has_char_false in Hn. congruence.
  - apply has_char_false in E. split; [done|tauto].
Qed.

Lemma split_on_not_nil sep s : split_on sep s ≠ [].
Proof.
  destruct s as [|c s]; simpl; [done|].
  destruct (N.eqb c sep); [done|]. by destruct (split_on sep s).
Qed.

Lemma split_on_single sep a : has_char sep a = false → split_on sep a = [a].
Proof.
  induction a as [|c a IH]; simpl; [done|].
  rewrite orb_false_iff, N.eqb_sym. intros [-> Ha]. by rewrite IH.
Qed.

Lemma split_on_app sep a b :
  has_char sep a = false → split_on sep (a ++ sep :: b) = a :: split_on sep b.
Proof.
  induction a as [|c a IH]; simpl.
  - intros _. by rewrite N.eqb_refl.
  - rewrite orb_false_iff, N.eqb_sym. intros [-> Ha]. by rewrite IH.
Qed.

Lemma split_on_parts sep s : Forall (λ p, has_char sep p = false) (split_on sep s).
Proof.
  induction s as [|c s IH]; simpl.
  - by repeat constructor.
  - destruct (N.eqb c sep) eqn:E.
    + by constructor.
    + destruct (split_on sep s) as [|w ws]; [by repeat constructor; simpl; rewrite N.eqb_sym, E|].
      inversion IH; subst. constructor; [|done].
      simpl. by rewrite N.eqb_sym, E.
Qed.

Lemma join_cons2 sep p q ps :
  join sep (p :: q :: ps) = p ++ sep ++ join sep (q :: ps).
Proof. reflexivity. Qed.

Lemma join_split_on sep s : join [sep] (split_on sep s) = s.
Proof.
  induction s as [|c s IH]; simpl; [done|].
  destruct (N.eqb c sep) eqn:E.
  - apply N.eqb_eq in E as ->.
    pose proof (split_on_not_nil sep s).
    destruct (split_on sep s) as [|w ws] eqn:Es; [done|].
    rewrite join_cons2. simpl. by rewrite <- IH.
  - pose proof (split_on_not_nil sep s).
    destruct (split_on sep s) as [|w ws] eqn:Es; [done|].
    destruct ws as [|w' ws]; simpl in *; by rewrite <- IH.
Qed.

Lemma split_on_join sep parts :
  parts ≠ [] → Forall (λ p, has_char sep p = false) parts →
  split_on sep (join [sep] parts) = parts.
Proof.
  induction parts as [|p ps IH]; [done|].
  intros _ Hall. inversion Hall as [|? ? Hp Hps]; subst.
  destruct ps as [|q ps].
  - simpl. by apply split_on_single.
  - rewrite join_cons2.
    change (split_on sep (p ++ sep :: join [sep] (q :: ps)) = p :: q :: ps).
    rewrite split_on_app by done. f_equal. by apply IH.
Qed.

(** [split(sep, 1)] *)
Lemma split_once_absent sep s : has_char sep s = false → split_once sep s = [s].
Proof.
  induction s as [|c s IH]; simpl; [done|].
  rewrite orb_false_iff, N.eqb_sym. intros [-> Hs]. by rewrite IH.
Qed.

Lemma split_once_app sep k v :
  has_char sep k = false → split_once sep (k ++ sep :: v) = [k; v].
Proof.
  induction k as [|c k IH]; simpl.
  - intros _. by rewrite N.eqb_refl.
  - rewrite orb_false_iff, N.eqb_sym. intros [-> Hk]. by rewrite IH.
Qed.

Lemma split_once_present sep s :
  has_char sep s = true →
  ∃ k v, s = k ++ sep :: v ∧ has_char sep k = false ∧ split_once sep s = [k; v].
Proof.
  induction s as [|c s IH]; simpl; [done|].
  rewrite N.eqb_sym. destruct (N.eqb c sep) eqn:E; simpl.
  - intros _. apply N.eqb_eq in E as ->. by exists [], s.
  - intros Hs. destruct (IH Hs) as (k & v & -> & Hk & Hsp).
    exists (c :: k), v. rewrite Hsp. simpl.
    by rewrite N.eqb_sym, E, Hk.
Qed.

(** ** The synchronizer, line by line *)

Lemma sync_step_effect lookup st ln :
  Sync.out (Sync.sync_step lookup st ln) = Sync.out st ++ [line_out lookup ln]
  ∧ Sync.matched (Sync.sync_step lookup st ln)
    = Sync.matched st + b2n (bool_decide (is_Some (resolved lookup ln)))
  ∧ Sync.updated (Sync.sync_step lookup st ln)
    = Sync.updated st + b2n (line_changed lookup ln).
Proof.
  unfold line_out, line_changed, synced_feats, resolved, Sync.sync_step.
  destruct (bool_decide (strip ln = []) || startswith (lit "#") ln);
    [simpl; split_and!; [done|lia..]|].
  cbv zeta.
  destruct (length (split_on tab ln) <? 10); [simpl; split_and!; [done|lia..]|].
  set (key := Sync.choose_conllu_key _).
  destruct (truthy key) eqn:Hk; simpl negb; cbv iota;
    [|simpl; split_and!; [done|lia..]].
  destruct (lookup !! default [] key) as [v|] eqn:Hv; simpl fmap.
  2:{ destruct (_ && _); simpl; split_and!; done || lia. }
  destruct (Sync.merge_triple _ v) as [feats' changed] eqn:Hm.
  destruct (bool_decide (default [] key ∈ Sync.debug_targets)), changed; simpl;
    rewrite ?Hm; simpl; split_and!; done || lia.
Qed.

Lemma sync_fold_effect lookup lines st :
  let st' := fold_left (Sync.sync_step lookup) lines st in
  Sync.out st' = Sync.out st ++ (line_out lookup <$> lines)
  ∧ Sync.matched st'
    = Sync.matched st
      + length (filter (λ ln, is_Some (resolved lookup ln)) lines)
  ∧ Sync.updated st'
    = Sync.updated st + length (filter (λ ln, line_changed lookup ln = true) lines).
Proof.
  revert st. induction lines as [|ln lines IH]; intros st; simpl.
  - rewrite app_nil_r. split_and!; [done|lia..].
  - destruct (IH (Sync.sync_step lookup st ln)) as (Ho & Hm & Hu).
    destruct (sync_step_effect lookup st ln) as (Ho1 & Hm1 & Hu1).
    rewrite Ho, Hm, Hu, Ho1, Hm1, Hu1.
    rewrite !filter_cons. split_and!.
    + by rewrite <- app_assoc.
    + case_bool_decide; destruct (decide _); simpl; try lia; tauto.
    + destruct (line_changed lookup ln); destruct (decide _); simpl; try lia; congruence.
Qed.

Lemma sync_effect lookup lines :
  let r := Sync.sync_conllu_with_magold lines lookup in
  Sync.out r = line_out lookup <$> lines
  ∧ Sync.matched r = length (filter (λ ln, is_Some (resolved lookup ln)) lines)
  ∧ Sync.updated r = length (filter (λ ln, line_changed lookup ln = true) lines).
Proof.
  apply (sync_fold_effect lookup lines
           {| Sync.out := []; Sync.matched := 0; Sync.updated := 0;
              Sync.debug_hits := [] |}).
Qed.

Lemma resolved_Some lookup ln key v :
  resolved lookup ln = Some (key, v) ↔
  strip ln ≠ [] ∧ startswith (lit "#") ln = false
  ∧ 10 ≤ length (split_on tab ln)
  ∧ Sync.choose_conllu_key (Sync.parse_misc (split_on tab ln !!! 9)) = Some key
  ∧ key ≠ [] ∧ lookup !! key = Some v.
Proof.
  unfold resolved. cbv zeta.
  case_bool_decide as Hs; cbn [orb].
  { split; [done|]. intros (? & _); done. }
  destruct (startswith (lit "#") ln); cbn [orb].
  { split; [done|]. intros (_ & ? & _); done. }
  destruct (Nat.ltb_spec (length (split_on tab ln)) 10) as [Hl|Hl].
  { split; [done|]. intros (_ & _ & ? & _); lia. }
  destruct (Sync.choose_conllu_key _) as [[|c k]|]; cbn [truthy negb default].
  - split; [done|]. intros (_ & _ & _ & [= <-] & ? & _); done.
  - rewrite fmap_Some. split.
    + intros (v' & Hv & Heq). unfold id in *. simplify_eq. by split_and!.
    + intros (_ & _ & _ & [= <-] & _ & Hv). exists v. by unfold id.
  - split; [done|]. intros (_ & _ & _ & ? & _); done.
Qed.

Lemma gen_ne_num : lit "gen" ≠ lit "num".
Proof. intros H. vm_compute in H. discriminate. Qed.

Lemma gen_ne_rat : lit "gen" ≠ lit "rat".
Proof. intros H. vm_compute in H. discriminate. Qed.

Lemma num_ne_rat : lit "num" ≠ lit "rat".
Proof. intros H. vm_compute in H. discriminate. Qed.

(** The three assignments amount to overwriting the three keys; the flag
    tells whether one of them had another value. *)
Lemma merge_triple_spec feats g n r :
  Sync.merge_triple feats (g, n, r)
  = (<[lit "rat" := r]> (<[lit "num" := n]> (<[lit "gen" := g]> feats)),
     negb (bool_decide (feats !! lit "gen" = Some g ∧ feats !! lit "num" = Some n
                        ∧ feats !! lit "rat" = Some r))).
Proof.
  pose proof gen_ne_num. pose proof gen_ne_rat. pose proof num_ne_rat.
  unfold Sync.merge_triple.
  destruct (decide (feats !! lit "gen" = Some g)) as [Hg|Hg];
  destruct (decide (feats !! lit "num" = Some n)) as [Hn|Hn];
  destruct (decide (feats !! lit "rat" = Some r)) as [Hr|Hr];
  repeat (case_bool_decide; simplify_map_eq; try tauto);
  f_equal;
  rewrite ?(insert_id feats (lit "gen") g) by done;
  rewrite ?(insert_id feats (lit "num") n) by done;
  rewrite ?(insert_id _ (lit "rat") r) by (by simplify_map_eq);
  rewrite ?(insert_id _ (lit "num") n) by (by simplify_map_eq);
  done.
Qed.

(** ** Key resolution *)

(** C5. Key resolution returns the value of "surface_plus_bw" whenever
    that entry is present (also next to a "surface_form_bw" entry), the
    value of "surface_form_bw" only when "surface_plus_bw" is absent, and
    no key when both are absent, in which case the loop body passes the line
    through: it appends it unchanged and leaves the counters alone. *)
Theorem choose_conllu_key_precedence (misc : gmap str str) :
  (∀ v, misc !! lit "surface_plus_bw" = Some v →
        Sync.choose_conllu_key misc = Some v)
  ∧ (∀ v, misc !! lit "surface_plus_bw" = None →
          misc !! lit "surface_form_bw" = Some v →
          Sync.choose_conllu_key misc = Some v)
  ∧ (misc !! lit "surface_plus_bw" = None →
     misc !! lit "surface_form_bw" = None →
     Sync.choose_conllu_key misc = None)
  ∧ (∀ lookup st ln,
       Sync.choose_conllu_key (Sync.parse_misc (split_on tab ln !!! 9)) = None →
       Sync.sync_step lookup st ln = Sync.emit ln st).
Proof.
  unfold Sync.choose_conllu_key. split_and!.
  - intros v Hv. rewrite Hv. by rewrite bool_decide_eq_true_2.
  - intros v Hp Hf. rewrite Hp, Hf.
    rewrite bool_decide_eq_false_2 by (by intros [? ?]).
    by rewrite bool_decide_eq_true_2.
  - intros Hp Hf. rewrite Hp, Hf.
    by rewrite !bool_decide_eq_false_2 by (by intros [? ?]).
  - intros lookup st ln Hk. unfold Sync.sync_step, Sync.choose_conllu_key.
    destruct (bool_decide (strip ln = []) || startswith (lit "#") ln); [done|].
    cbv zeta. destruct (length (split_on tab ln) <? 10); [done|].
    unfold Sync.choose_conllu_key in Hk. by rewrite Hk.
Qed.

Lemma choose_conllu_key_precedence_witness :
  Sync.choose_conllu_key ex_misc_both = Some (lit "A").
Proof.
  apply (proj1 (choose_conllu_key_precedence ex_misc_both)).
  vm_compute. reflexivity.
Defined.

(** ** Conservativeness *)

(** C4, as stated, fails for the empty key: key resolution returns the
    empty string of "surface_plus_bw=", the lookup has an entry for it and
    the features agree with that entry, but the loop body takes an empty key
    for no key ([if not key]) and does not count the line as matched. *)
Lemma sync_conservative_counterexample :
  Sync.choose_conllu_key (Sync.parse_misc (split_on tab ex_line_empty_key !!! 9))
  = Some []
  ∧ ex_lookup_empty_key !! [] = Some (lit "f", lit "p", lit "i")
  ∧ Sync.parse_feats (split_on tab ex_line_empty_key !!! 5) !! lit "gen" = Some (lit "f")
  ∧ Sync.parse_feats (split_on tab ex_line_empty_key !!! 5) !! lit "num" = Some (lit "p")
  ∧ Sync.parse_feats (split_on tab ex_line_empty_key !!! 5) !! lit "rat" = Some (lit "i")
  ∧ Sync.out (Sync.sync_conllu_with_magold [ex_line_empty_key] ex_lookup_empty_key)
    = [ex_line_empty_key]
  ∧ Sync.matched (Sync.sync_conllu_with_magold [ex_line_empty_key] ex_lookup_empty_key)
    = 0.
Proof. split_and!; vm_compute; reflexivity. Qed.

(** C4, amended. A line that gets past the guards of the loop (not blank,
    not a comment, ten columns or more), whose MISC column resolves to a
    non-empty key of the lookup and whose parsed feature map already holds
    the lookup's gender, number and rationality is appended to the output as
    it is (the very input string), counts as matched and does not count as
    updated, wherever it stands in the input. *)
Theorem sync_conservative lookup pre ln post key g n r :
  strip ln ≠ [] →
  startswith (lit "#") ln = false →
  10 ≤ length (split_on tab ln) →
  Sync.choose_conllu_key (Sync.parse_misc (split_on tab ln !!! 9)) = Some key →
  key ≠ [] →
  lookup !! key = Some (g, n, r) →
  Sync.parse_feats (split_on tab ln !!! 5) !! lit "gen" = Some g →
  Sync.parse_feats (split_on tab ln !!! 5) !! lit "num" = Some n →
  Sync.parse_feats (split_on tab ln !!! 5) !! lit "rat" = Some r →
  let all := Sync.sync_conllu_with_magold (pre ++ ln :: post) lookup in
  let before := Sync.sync_conllu_with_magold pre lookup in
  let after := Sync.sync_conllu_with_magold post lookup in
  Sync.out all = Sync.out before ++ ln :: Sync.out after
  ∧ Sync.out all !! length pre = Some ln
  ∧ Sync.matched all = Sync.matched before + 1 + Sync.matched after
  ∧ Sync.updated all = Sync.updated before + Sync.updated after.
Proof.
  intros Hnb Hhash Hlen Hkey Hkne Hl Hg Hn Hr all before after.
  assert (Hres : resolved lookup ln = Some (key, (g, n, r))).
  { apply resolved_Some. by split_and!. }
  destruct (sync_effect lookup (pre ++ ln :: post)) as (Ho & Hm & Hu).
  destruct (sync_effect lookup pre) as (Ho1 & Hm1 & Hu1).
  destruct (sync_effect lookup post) as (Ho2 & Hm2 & Hu2).
  fold all in Ho, Hm, Hu. fold before in Ho1, Hm1, Hu1. fold after in Ho2, Hm2, Hu2.
  assert (Hch : line_changed lookup ln = false).
  { unfold line_changed. rewrite Hres, merge_triple_spec. simpl.
    by rewrite bool_decide_eq_true_2. }
  assert (Hout : line_out lookup ln = ln).
  { unfold line_out. by rewrite Hch. }
  assert (Hall : Sync.out all = Sync.out before ++ ln :: Sync.out after).
  { rewrite Ho, Ho1, Ho2, fmap_app, fmap_cons. by rewrite Hout. }
  split_and!.
  - done.
  - rewrite Hall, Ho1. rewrite lookup_app_r by (by rewrite length_fmap).
    by rewrite length_fmap, Nat.sub_diag.
  - rewrite Hm, Hm1, Hm2, filter_app, filter_cons, length_app.
    rewrite decide_True by (by rewrite Hres). simpl. lia.
  - rewrite Hu, Hu1, Hu2, filter_app, filter_cons, length_app.
    rewrite decide_False by (by rewrite Hch). lia.
Qed.

Lemma sync_conservative_witness :
  let all := Sync.sync_conllu_with_magold ([ex_line_stale] ++ ex_line_synced :: []) ex_lookup in
  let before := Sync.sync_conllu_with_magold [ex_line_stale] ex_lookup in
  let after := Sync.sync_conllu_with_magold [] ex_lookup in
  Sync.out all = Sync.out before ++ ex_line_synced :: Sync.out after
  ∧ Sync.out all !! length [ex_line_stale] = Some ex_line_synced
  ∧ Sync.matched all = Sync.matched before + 1 + Sync.matched after
  ∧ Sync.updated all = Sync.updated before + Sync.updated after.
Proof.
  apply (sync_conservative ex_lookup [ex_line_stale] ex_line_synced []
           (lit "XYZ") (lit "f") (lit "p") (lit "i"));
    try (vm_compute; reflexivity);
    intros H; vm_compute in H; discriminate.
Defined.

(** ** The merged feature map *)

(** The feature map the loop body holds for a line once it is done with
    it (the map it serializes when it rewrites the line) has no key outside
    the keys parsed from the line and gen, num, rat, and maps every other
    key as the parsed map does. *)
Lemma merged_map_keys lookup ln :
  let feats := Sync.parse_feats (split_on tab ln !!! 5) in
  let feats' := synced_feats lookup ln in
  dom feats' ⊆ dom feats ∪ {[lit "gen"; lit "num"; lit "rat"]}
  ∧ (∀ k, k ∉ [lit "gen"; lit "num"; lit "rat"] → feats' !! k = feats !! k).
Proof.
  intros feats feats'. split.
  - unfold feats', synced_feats. fold feats.
    destruct (resolved lookup ln) as [[key [[g n] r]]|];
      [|intros k; rewrite elem_of_union; tauto].
    rewrite merge_triple_spec. simpl. rewrite !dom_insert.
    intros k. rewrite !elem_of_union, !elem_of_singleton. tauto.
  - intros k Hk. unfold feats', synced_feats. fold feats.
    destruct (resolved lookup ln) as [[key [[g n] r]]|]; [|done].
    rewrite merge_triple_spec. simpl.
    rewrite !not_elem_of_cons in Hk. destruct Hk as (? & ? & ? & _).
    by rewrite !lookup_insert_ne.
Qed.

(** ** The pair extractor *)

Lemma dict_get_set {V} (k k' : Z) (v : V) d :
  dict_get k (dict_set k' v d) = if Z.eqb k k' then Some v else dict_get k d.
Proof.
  induction d as [|[k0 v0] d IH]; simpl.
  - by destruct (Z.eqb k k').
  - destruct (Z.eqb_spec k' k0) as [->|Hne]; simpl.
    + by destruct (Z.eqb k k0).
    + rewrite IH. destruct (Z.eqb_spec k k0) as [->|?]; [|done].
      destruct (Z.eqb_spec k0 k'); [congruence|done].
Qed.

Lemma fold_token_step_raised ud sent :
  fold_left (Pairs.token_step ud) sent Raised = Raised.
Proof. induction sent as [|ln sent IH]; simpl; [done|]. exact IH. Qed.

(** Every entry of the [tokens] dict comes from a line of the sentence that
    parsed to a token, under the id of that token. *)
Lemma fold_token_step_get ud sent tokens0 tokens k t :
  fold_left (Pairs.token_step ud) sent (Ok tokens0) = Ok tokens →
  dict_get k tokens = Some t →
  dict_get k tokens0 = Some t
  ∨ ∃ ln t0, ln ∈ sent ∧ Pairs.parse_token_line ud ln = Ok (Some t0)
             ∧ Pairs.t_id t0 = k ∧ t = Pairs.with_maps t0.
Proof.
  revert tokens0. induction sent as [|ln sent IH]; intros tokens0; simpl.
  - intros [= ->] Hget. by left.
  - destruct (Pairs.parse_token_line ud ln) as [|[t0|]] eqn:Hp; simpl.
    + rewrite fold_token_step_raised. done.
    + intros Hfold Hget. destruct (IH _ Hfold Hget) as [Hold|(ln' & t' & Hin & ?)].
      * rewrite dict_get_set in Hold. simpl in Hold.
        destruct (Z.eqb_spec k (Pairs.t_id t0)) as [->|Hne]; [|by left].
        right. exists ln, t0. split_and!; [apply list_elem_of_here|done|done|congruence].
      * right. exists ln', t'. split; [by apply list_elem_of_further|done].
    + intros Hfold Hget. destruct (IH _ Hfold Hget) as [Hold|(ln' & t' & Hin & ?)].
      * by left.
      * right. exists ln', t'. split; [by apply list_elem_of_further|done].
Qed.

Lemma sentence_tokens_get ud sent tokens k t :
  Pairs.sentence_tokens ud sent = Ok tokens →
  dict_get k tokens = Some t →
  ∃ ln t0, ln ∈ sent ∧ Pairs.parse_token_line ud ln = Ok (Some t0)
           ∧ Pairs.t_id t0 = k ∧ t = Pairs.with_maps t0.
Proof.
  intros Hfold Hget.
  destruct (fold_token_step_get ud sent [] tokens k t Hfold Hget) as [Hnil|H]; [done|exact H].
Qed.

(** What a row says about the dependent and the head it was made from. *)
Lemma pair_of_Some sent_i tokens dep_id dep row :
  Pairs.pair_of sent_i tokens dep_id dep = Some row →
  Pairs.t_deprel dep = lit "MOD"
  ∧ Pairs.is_adj_token (Pairs.t_upos dep) (Pairs.t_xpos dep) (Pairs.t_misc dep) = true
  ∧ ∃ head, dict_get (Pairs.t_head dep) tokens = Some head
      ∧ Pairs.is_noun_like (Pairs.t_misc head) (Pairs.t_upos head) (Pairs.t_xpos head) = true
      ∧ Pairs.sent_idx row = py_str_of_int sent_i
      ∧ Pairs.adj_id row = py_str_of_int dep_id
      ∧ Pairs.head_id row = py_str_of_int (Pairs.t_head dep)
      ∧ Pairs.deprel row = lit "MOD"
      ∧ Pairs.adj_form row = Pairs.t_form dep
      ∧ Pairs.head_form row = Pairs.t_form head.
Proof.
  unfold Pairs.pair_of. case_bool_decide as Hmod; [|done]. cbn [negb].
  destruct (Pairs.is_adj_token _ _ _); [|done]. cbn [negb].
  destruct (dict_get (Pairs.t_head dep) tokens) as [head|]; [|done].
  destruct (Pairs.is_noun_like _ _ _) eqn:Hnoun; [|done]. cbn [negb].
  intros [= <-]. split_and!; [done..|]. exists head. by split_and!.
Qed.

Lemma fold_rows_step_raised ud sents :
  fold_left (Pairs.rows_step ud) sents Raised = Raised.
Proof. induction sents as [|s sents IH]; simpl; [done|]. exact IH. Qed.

Lemma fold_rows_step_elem ud sents i0 rows0 i1 rows1 row :
  fold_left (Pairs.rows_step ud) sents (Ok (i0, rows0)) = Ok (i1, rows1) →
  row ∈ rows1 →
  row ∈ rows0
  ∨ ∃ (j : nat) sent tokens,
      sents !! j = Some sent ∧ Pairs.sentence_tokens ud sent = Ok tokens
      ∧ row ∈ Pairs.sentence_rows (i0 + Z.of_nat j)%Z tokens.
Proof.
  revert i0 rows0. induction sents as [|sent sents IH]; intros i0 rows0; simpl.
  - intros [= -> ->] Hin. by left.
  - destruct (Pairs.sentence_tokens ud sent) as [|tokens] eqn:Htok; simpl.
    + by rewrite fold_rows_step_raised.
    + intros Hfold Hin.
      destruct (IH _ _ Hfold Hin) as [Hold|(j & sent' & tokens' & Hj & Ht & Hr)].
      * apply elem_of_app in Hold as [Hold|Hnew]; [by left|].
        right. exists 0, sent, tokens. split_and!; [done..|].
        by rewrite Z.add_0_r.
      * right. exists (S j), sent', tokens'. split_and!; [done..|].
        by replace (i0 + Z.of_nat (S j))%Z with (i0 + 1 + Z.of_nat j)%Z by lia.
Qed.

(** C7. Every row [main] emits was made from a dependent token of some
    sentence of the input whose relation label is "MOD" and which passes the
    adjective test, and from the token found under the dependent's head id
    in the id-to-token mapping of that same sentence, which passes the
    noun-like test. *)
Theorem emitted_pairs_sound ud lines rows row :
  Pairs.main ud lines = Ok rows →
  row ∈ rows →
  ∃ (j : nat) sent tokens dep_id dep head,
    Pairs.read_conllu_sentences lines !! j = Some sent
    ∧ Pairs.sentence_tokens ud sent = Ok tokens
    ∧ (dep_id, dep) ∈ tokens
    ∧ Pairs.pair_of (1 + Z.of_nat j) tokens dep_id dep = Some row
    ∧ Pairs.t_deprel dep = lit "MOD"
    ∧ Pairs.is_adj_token (Pairs.t_upos dep) (Pairs.t_xpos dep) (Pairs.t_misc dep) = true
    ∧ dict_get (Pairs.t_head dep) tokens = Some head
    ∧ Pairs.is_noun_like (Pairs.t_misc head) (Pairs.t_upos head) (Pairs.t_xpos head) = true
    ∧ Pairs.adj_id row = py_str_of_int dep_id
    ∧ Pairs.head_id row = py_str_of_int (Pairs.t_head dep)
    ∧ Pairs.deprel row = lit "MOD".
Proof.
  unfold Pairs.main, Pairs.extract_rows. intros Hmain Hin.
  destruct (fold_left _ _ _) as [|[i1 rows1]] eqn:Hfold; [done|].
  simpl in Hmain. injection Hmain as ->.
  destruct (fold_rows_step_elem _ _ _ _ _ _ _ Hfold Hin)
    as [Hnil|(j & sent & tokens & Hj & Htok & Hrow)].
  { by apply elem_of_nil in Hnil. }
  unfold Pairs.sentence_rows in Hrow.
  apply list_elem_of_omap in Hrow as ([dep_id dep] & Hdep & Hpair).
  destruct (pair_of_Some _ _ _ _ _ Hpair)
    as (Hmod & Hadj & head & Hhead & Hnoun & _ & Hai & Hhi & Hrel & _).
  exists j, sent, tokens, dep_id, dep, head. by split_and!.
Qed.

Lemma emitted_pairs_sound_witness :
  ∃ (j : nat) sent tokens dep_id dep head,
    Pairs.read_conllu_sentences [lit "# sent 1"; ex_adj_line; ex_noun_line] !! j = Some sent
    ∧ Pairs.sentence_tokens ascii_data sent = Ok tokens
    ∧ (dep_id, dep) ∈ tokens
    ∧ Pairs.pair_of (1 + Z.of_nat j) tokens dep_id dep = Some ex_row
    ∧ Pairs.t_deprel dep = lit "MOD"
    ∧ Pairs.is_adj_token (Pairs.t_upos dep) (Pairs.t_xpos dep) (Pairs.t_misc dep) = true
    ∧ dict_get (Pairs.t_head dep) tokens = Some head
    ∧ Pairs.is_noun_like (Pairs.t_misc head) (Pairs.t_upos head) (Pairs.t_xpos head) = true
    ∧ Pairs.adj_id ex_row = py_str_of_int dep_id
    ∧ Pairs.head_id ex_row = py_str_of_int (Pairs.t_head dep)
    ∧ Pairs.deprel ex_row = lit "MOD".
Proof.
  apply (emitted_pairs_sound ascii_data
           [lit "# sent 1"; ex_adj_line; ex_noun_line] [ex_row] ex_row).
  - vm_compute. reflexivity.
  - apply list_elem_of_here.
Defined.

(** C10, as stated, fails: the head column "_" of token 1 is not made of
    digits, its head id is 0, and yet it is emitted as the dependent of a
    pair, because the sentence has a token line with id 0. *)
Lemma headless_token_pair_counterexample :
  isdigit ascii_data (split_on tab ex_headless_line !!! 6) = false
  ∧ (∃ t, Pairs.parse_token_line ascii_data ex_headless_line = Ok (Some t)
          ∧ Pairs.t_head t = 0%Z)
  ∧ Pairs.main ascii_data [ex_zero_line; ex_headless_line] = Ok [ex_zero_row].
Proof.
  split_and!.
  - vm_compute. reflexivity.
  - eexists. split; [vm_compute; reflexivity|reflexivity].
  - vm_compute. reflexivity.
Qed.

(** C10, amended. A token line that parses and whose head column is not a
    non-empty string of digit characters ([str.isdigit]) gets the head id
    0; in a sentence none of whose token lines has an id that parses to 0, a
    token whose head id is 0 never yields a pair as dependent. *)
Theorem headless_token_no_pair ud :
  (∀ line t,
     Pairs.parse_token_line ud line = Ok (Some t) →
     isdigit ud (split_on tab line !!! 6) = false →
     Pairs.t_head t = 0%Z)
  ∧ (∀ sent tokens sent_i dep_id dep,
       Pairs.sentence_tokens ud sent = Ok tokens →
       (∀ ln t, ln ∈ sent → Pairs.parse_token_line ud ln = Ok (Some t) →
                Pairs.t_id t ≠ 0%Z) →
       (dep_id, dep) ∈ tokens →
       Pairs.t_head dep = 0%Z →
       Pairs.pair_of sent_i tokens dep_id dep = None).
Proof.
  split.
  - intros line t. unfold Pairs.parse_token_line.
    destruct (startswith (lit "#") line); [done|]. cbv zeta.
    destruct (length (split_on tab line) <? 10); [done|].
    destruct (has_char dash _ || has_char dot _); [done|].
    destruct (py_int ud (split_on tab line !!! 0)) as [i|]; [|done]. simpl.
    intros Hp Hd. rewrite Hd in Hp. simpl in Hp. by injection Hp as <-.
  - intros sent tokens sent_i dep_id dep Htok Hno Hin Hhead.
    unfold Pairs.pair_of. rewrite Hhead.
    destruct (dict_get 0%Z tokens) as [head|] eqn:Hget.
    + destruct (sentence_tokens_get _ _ _ _ _ Htok Hget) as (ln & t0 & Hln & Hp & Hid & _).
      by destruct (Hno ln t0 Hln Hp).
    + by repeat destruct (negb _).
Qed.

Lemma headless_token_no_pair_witness :
  Pairs.pair_of 1%Z
    [(1%Z, Pairs.with_maps
             {| Pairs.t_id := 1; Pairs.t_form := lit "A"; Pairs.t_lemma := lit "_";
                Pairs.t_upos := lit "_"; Pairs.t_xpos := lit "_";
                Pairs.t_feats_raw := lit "_"; Pairs.t_head := 0;
                Pairs.t_deprel := lit "MOD"; Pairs.t_deps := lit "_";
                Pairs.t_misc_raw := lit "bw=ADJ"; Pairs.t_feats := ∅;
                Pairs.t_misc := ∅ |})]
    1%Z
    (Pairs.with_maps
       {| Pairs.t_id := 1; Pairs.t_form := lit "A"; Pairs.t_lemma := lit "_";
          Pairs.t_upos := lit "_"; Pairs.t_xpos := lit "_";
          Pairs.t_feats_raw := lit "_"; Pairs.t_head := 0;
          Pairs.t_deprel := lit "MOD"; Pairs.t_deps := lit "_";
          Pairs.t_misc_raw := lit "bw=ADJ"; Pairs.t_feats := ∅;
          Pairs.t_misc := ∅ |})
  = None.
Proof.
  apply (proj2 (headless_token_no_pair ascii_data) [ex_headless_line]).
  - vm_compute. reflexivity.
  - intros ln t Hln. apply list_elem_of_singleton in Hln as ->.
    vm_compute. intros [= <-]. done.
  - apply list_elem_of_here.
  - reflexivity.
Defined.

(** ** Multi-word token lines *)

(** C1, as stated, fails: the synchronizer never looks at the id column, so
    a line with the id "1-2" whose MISC column resolves to a key of the
    lookup has its feature column rewritten. *)
Lemma multiword_line_counterexample :
  has_char dash (split_on tab ex_mwt_line !!! 0) = true
  ∧ Pairs.parse_token_line ascii_data ex_mwt_line = Ok None
  ∧ Sync.out (Sync.sync_conllu_with_magold [ex_mwt_line] ex_lookup)
    = [ex_mwt_line_rewritten]
  ∧ ex_mwt_line_rewritten ≠ ex_mwt_line.
Proof.
  split_and!; [vm_compute; reflexivity..|].
  intros H. vm_compute in H. discriminate.
Qed.

(** C1, amended. For a line whose first tab-separated field contains "-" or
    ".", the token parser of the pair extractor returns [None]; the
    synchronizer treats it like any other line: the line is in the output
    as it is when it does not resolve to a key of the lookup, or when its
    feature map already holds the lookup's triple. *)
Theorem multiword_line_excluded ud line :
  has_char dash (split_on tab line !!! 0) = true
  ∨ has_char dot (split_on tab line !!! 0) = true →
  Pairs.parse_token_line ud line = Ok None
  ∧ (∀ lookup pre post,
       resolved lookup line = None
       ∨ (∃ key g n r,
            resolved lookup line = Some (key, (g, n, r))
            ∧ Sync.parse_feats (split_on tab line !!! 5) !! lit "gen" = Some g
            ∧ Sync.parse_feats (split_on tab line !!! 5) !! lit "num" = Some n
            ∧ Sync.parse_feats (split_on tab line !!! 5) !! lit "rat" = Some r) →
       Sync.out (Sync.sync_conllu_with_magold (pre ++ line :: post) lookup)
       = Sync.out (Sync.sync_conllu_with_magold pre lookup)
         ++ line :: Sync.out (Sync.sync_conllu_with_magold post lookup)).
Proof.
  intros Hid. split.
  - unfold Pairs.parse_token_line.
    destruct (startswith (lit "#") line); [done|]. cbv zeta.
    destruct (length (split_on tab line) <? 10); [done|].
    by destruct Hid as [-> | ->]; rewrite ?orb_true_r.
  - intros lookup pre post Hres.
    destruct (sync_effect lookup (pre ++ line :: post)) as (-> & _).
    destruct (sync_effect lookup pre) as (-> & _).
    destruct (sync_effect lookup post) as (-> & _).
    rewrite fmap_app, fmap_cons. do 2 f_equal.
    unfold line_out, line_changed.
    destruct Hres as [-> | (key & g & n & r & -> & Hg & Hn & Hr)]; [done|].
    rewrite merge_triple_spec. simpl. by rewrite bool_decide_eq_true_2.
Qed.

Lemma multiword_line_excluded_witness :
  Pairs.parse_token_line ascii_data ex_mwt_line = Ok None.
Proof.
  apply (multiword_line_excluded ascii_data ex_mwt_line).
  left. vm_compute. reflexivity.
Defined.

(** ** The MAGOLD lookup *)

(** C6, as stated, fails: [lstrip("+")] removes every leading "+", so for
    the bw value "++ab/NOUN" the registered key is "ab", and the key with
    one "+" stripped, "+ab", is not registered. *)
Lemma bw_key_counterexample :
  Sync.extract_field ascii_data (strip ex_magold_plus_line) (lit "bw")
  = Some (lit "++ab/NOUN")
  ∧ spec_bw_key (lit "++ab/NOUN") = lit "+ab"
  ∧ Sync.build_magold_lookup ascii_data [ex_magold_plus_line] !! lit "+ab" = None
  ∧ Sync.build_magold_lookup ascii_data [ex_magold_plus_line] !! lit "ab"
    = Some (lit "f", lit "s", lit "i").
Proof. split_and!; vm_compute; reflexivity. Qed.

(** [lstrip] removes exactly the leading run of its character. *)
Lemma lstrip_char_run ch s :
  ∃ m, s = replicate m ch ++ lstrip_char ch s ∧ head (lstrip_char ch s) ≠ Some ch.
Proof.
  induction s as [|c s (m & E & H)]; simpl.
  - by exists 0.
  - destruct (N.eqb_spec c ch) as [->|Hc].
    + exists (S m). simpl. split; [by rewrite <- E|done].
    + exists 0. split; [done|]. simpl. congruence.
Qed.

(** The first item of [split(sep, 1)] is what stands before the first
    separator, the whole string when there is none. *)
Lemma split_once_hd_cut sep s :
  (s = hd [] (split_once sep s) ∨ ∃ b, s = hd [] (split_once sep s) ++ sep :: b)
  ∧ has_char sep (hd [] (split_once sep s)) = false.
Proof.
  destruct (has_char sep s) eqn:Hs.
  - destruct (split_once_present _ _ Hs) as (a & b & E & Ha & ->). simpl.
    split; [right; by exists b|done].
  - rewrite split_once_absent by done. simpl. by split; [left|].
Qed.

(** No line registers anything under the empty key. *)
Lemma lookup_step_empty_key ud lookup line :
  Sync.lookup_step ud lookup line !! ([] : str) = lookup !! ([] : str).
Proof.
  unfold Sync.lookup_step. cbv zeta.
  destruct (_ || _); [done|]. destruct (_ || _); [done|].
  destruct (Sync.extract_field ud (strip line) (lit "gen")) as [g|]; [|done].
  destruct (Sync.extract_field ud (strip line) (lit "num")) as [n|]; [|done].
  destruct (Sync.extract_field ud (strip line) (lit "rat")) as [r|]; [|done].
  set (L := if truthy (Sync.extract_field ud (strip line) (lit "diac")) then _ else lookup).
  assert (HL : L !! ([] : str) = lookup !! ([] : str)).
  { unfold L.
    destruct (Sync.extract_field ud (strip line) (lit "diac")) as [[|c d]|]; [done| |done].
    cbn [truthy]. by rewrite lookup_insert_ne. }
  clearbody L.
  destruct (Sync.extract_field ud (strip line) (lit "bw")) as [[|c b]|]; [done| |done].
  cbn [truthy].
  destruct (lstrip_char plus (hd [] (split_once slash (c :: b)))) as [|c' t]; [done|].
  cbn [truthy]. by rewrite lookup_insert_ne.
Qed.

(** C6, amended. For a retained analysis line (non-blank once stripped,
    starting with "*") with a bw value, the transliterated-form key is the
    part of the bw value before its first "/" (all of it when it holds
    none) without its leading run of "+": that part is a number of "+"
    followed by the key, and the key does not start with "+".  The empty
    key is never registered.  When gender, number and rationality are
    present and none is "na", the line registers the triple under the key
    if it is not empty, and touches no key other than it and the diac
    value; when one of the three is absent or "na", the line registers
    nothing. *)
Theorem bw_key_registered ud lookup line bw :
  strip line ≠ [] →
  startswith (lit "*") (strip line) = true →
  Sync.extract_field ud (strip line) (lit "bw") = Some bw →
  let gen := Sync.extract_field ud (strip line) (lit "gen") in
  let num := Sync.extract_field ud (strip line) (lit "num") in
  let rat := Sync.extract_field ud (strip line) (lit "rat") in
  let diac := Sync.extract_field ud (strip line) (lit "diac") in
  let key := lstrip_char plus (hd [] (split_once slash bw)) in
  (∃ m a, (bw = a ∨ ∃ b, bw = a ++ slash :: b)
          ∧ has_char slash a = false
          ∧ a = replicate m plus ++ key
          ∧ head key ≠ Some plus)
  ∧ Sync.lookup_step ud lookup line !! ([] : str) = lookup !! ([] : str)
  ∧ (∀ g n r, gen = Some g → num = Some n → rat = Some r →
       g ≠ lit "na" → n ≠ lit "na" → r ≠ lit "na" →
       (key ≠ [] → Sync.lookup_step ud lookup line !! key = Some (g, n, r))
       ∧ (∀ k, k ≠ key → Some k ≠ diac →
               Sync.lookup_step ud lookup line !! k = lookup !! k))
  ∧ (Sync.unusable gen = true ∨ Sync.unusable num = true ∨ Sync.unusable rat = true →
     Sync.lookup_step ud lookup line = lookup).
Proof.
  intros Hne Hstar Hbw gen num rat diac key. split_and!.
  - destruct (lstrip_char_run plus (hd [] (split_once slash bw))) as (m & E & Hh).
    destruct (split_once_hd_cut slash bw) as [Hcut Hno].
    by exists m, (hd [] (split_once slash bw)).
  - apply lookup_step_empty_key.
  - intros g n r Hg Hn Hr Hgna Hnna Hrna.
    unfold Sync.lookup_step. cbv zeta.
    rewrite bool_decide_eq_false_2 by done. rewrite Hstar. cbn [negb orb].
    fold gen num rat diac. rewrite Hg, Hn, Hr, Hbw. unfold Sync.unusable.
    rewrite !bool_decide_eq_false_2 by done. cbn [orb]. fold key.
    split.
    + intros Hkey.
      assert (truthy (Some bw) = true) as ->.
      { destruct bw; [|done]. by destruct Hkey. }
      assert (truthy (Some key) = true) as -> by (by destruct key).
      by rewrite lookup_insert_eq.
    + intros k Hk Hd.
      set (L := if truthy diac then _ else lookup).
      assert (HL : L !! k = lookup !! k).
      { unfold L. destruct diac as [d|]; [|done]. destruct (truthy (Some d)); [|done].
        rewrite lookup_insert_ne; [done|congruence]. }
      clearbody L.
      destruct (truthy (Some bw)); [|done].
      destruct (truthy (Some key)); [|done].
      by rewrite lookup_insert_ne.
  - intros Hun. unfold Sync.lookup_step. cbv zeta.
    destruct (bool_decide (strip line = []) || negb (startswith (lit "*") (strip line)));
      [done|].
    fold gen num rat.
    by destruct Hun as [-> | [-> | ->]]; rewrite ?orb_true_r.
Qed.

Lemma bw_key_registered_witness :
  (∃ m a, (lit "++ab/NOUN" = a ∨ ∃ b, lit "++ab/NOUN" = a ++ slash :: b)
          ∧ has_char slash a = false
          ∧ a = replicate m plus ++ lit "ab"
          ∧ head (lit "ab") ≠ Some plus)
  ∧ Sync.lookup_step ascii_data ∅ ex_magold_plus_line !! lit "ab"
    = Some (lit "f", lit "s", lit "i").
Proof.
  assert (H1 : strip ex_magold_plus_line ≠ [])
    by (intros H; vm_compute in H; discriminate).
  assert (H2 : startswith (lit "*") (strip ex_magold_plus_line) = true)
    by (vm_compute; reflexivity).
  assert (H3 : Sync.extract_field ascii_data (strip ex_magold_plus_line) (lit "bw")
               = Some (lit "++ab/NOUN")) by (vm_compute; reflexivity).
  destruct (bw_key_registered ascii_data ∅ ex_magold_plus_line (lit "++ab/NOUN") H1 H2 H3)
    as (Hkey & _ & Hreg & _).
  split; [exact Hkey|].
  refine (proj1 (Hreg (lit "f") (lit "s") (lit "i") _ _ _ _ _ _) _);
    try (vm_compute; reflexivity);
    intros H; vm_compute in H; discriminate.
Defined.

(** ** Strings: [strip] *)

Lemma lstrip_ws_app a c b :
  isspace c = false → lstrip_ws (a ++ c :: b) = lstrip_ws a ++ c :: b.
Proof.
  intros Hc. induction a as [|x a IH]; simpl.
  - by rewrite Hc.
  - by destruct (isspace x).
Qed.

Lemma rstrip_ws_app a c b :
  isspace c = false → rstrip_ws (a ++ c :: b) = a ++ c :: rstrip_ws b.
Proof.
  intros Hc. unfold rstrip_ws.
  rewrite rev_app_distr. simpl. rewrite <- app_assoc. simpl.
  rewrite lstrip_ws_app by done.
  rewrite rev_app_distr. simpl. rewrite rev_involutive, <- app_assoc. done.
Qed.

Lemma strip_app a c b :
  isspace c = false → strip (a ++ c :: b) = lstrip_ws a ++ c :: rstrip_ws b.
Proof.
  intros Hc. unfold strip. rewrite lstrip_ws_app by done. by apply rstrip_ws_app.
Qed.

Lemma lstrip_ws_suffix s : ∃ p, s = p ++ lstrip_ws s.
Proof.
  induction s as [|c s [p Hp]]; simpl.
  - by exists [].
  - destruct (isspace c).
    + exists (c :: p). simpl. by rewrite <- Hp.
    + by exists [].
Qed.

Lemma rstrip_ws_prefix s : ∃ q, s = rstrip_ws s ++ q.
Proof.
  unfold rstrip_ws. destruct (lstrip_ws_suffix (rev s)) as [p Hp].
  exists (rev p). rewrite <- rev_app_distr, <- Hp. by rewrite rev_involutive.
Qed.

Lemma strip_infix s : ∃ p q, s = p ++ strip s ++ q.
Proof.
  destruct (lstrip_ws_suffix s) as [p Hp].
  destruct (rstrip_ws_prefix (lstrip_ws s)) as [q Hq].
  exists p, q. unfold strip. by rewrite <- Hq.
Qed.

Lemma has_char_lstrip_ws ch s : has_char ch s = false → has_char ch (lstrip_ws s) = false.
Proof.
  destruct (lstrip_ws_suffix s) as [p Hp]. rewrite Hp at 1.
  rewrite has_char_app, orb_false_iff. tauto.
Qed.

Lemma has_char_rstrip_ws ch s : has_char ch s = false → has_char ch (rstrip_ws s) = false.
Proof.
  destruct (rstrip_ws_prefix s) as [q Hq]. rewrite Hq at 1.
  rewrite has_char_app, orb_false_iff. tauto.
Qed.

Lemma has_char_strip ch s : has_char ch s = false → has_char ch (strip s) = false.
Proof. intros H. by apply has_char_rstrip_ws, has_char_lstrip_ws. Qed.

(** A string without whitespace is left alone. *)
Lemma lstrip_ws_id s : (∀ c, c ∈ s → isspace c = false) → lstrip_ws s = s.
Proof.
  destruct s as [|c s]; simpl; [done|]. intros H.
  by rewrite (H c) by apply list_elem_of_here.
Qed.

Lemma rstrip_ws_id s : (∀ c, c ∈ s → isspace c = false) → rstrip_ws s = s.
Proof.
  intros H. unfold rstrip_ws. rewrite lstrip_ws_id.
  - apply rev_involutive.
  - intros c Hc. apply H. apply list_elem_of_In. apply in_rev.
    by apply list_elem_of_In.
Qed.

(** ** The feature codec on lists of entries *)

Lemma encode_cons2 e e' kvs :
  encode (e :: e' :: kvs) = kv e ++ pipe :: encode (e' :: kvs).
Proof. reflexivity. Qed.

Lemma encode_cons e kvs :
  encode (e :: kvs)
  = e.1 ++ equals :: match kvs with [] => e.2 | _ => e.2 ++ pipe :: encode kvs end.
Proof.
  destruct kvs as [|e' kvs]; [done|].
  rewrite encode_cons2. unfold kv. by rewrite <- app_assoc.
Qed.

Lemma has_char_encode kvs : kvs ≠ [] → has_char equals (encode kvs) = true.
Proof.
  destruct kvs as [|e kvs]; [done|]. intros _.
  rewrite encode_cons, has_char_app, has_char_cons, N.eqb_refl.
  by rewrite orb_true_r.
Qed.

Lemma rstrip_encode kvs : kvs ≠ [] → rstrip_ws (encode kvs) = encode (strip_last kvs).
Proof.
  induction kvs as [|e kvs IH]; [done|]. intros _.
  destruct kvs as [|e' kvs].
  - unfold encode, kv. simpl. by apply rstrip_ws_app.
  - change (strip_last (e :: e' :: kvs)) with (e :: strip_last (e' :: kvs)).
    rewrite encode_cons2, rstrip_ws_app, IH by done.
    by destruct kvs as [|e'' kvs].
Qed.

Lemma lstrip_encode kvs : kvs ≠ [] → lstrip_ws (encode kvs) = encode (strip_first kvs).
Proof.
  destruct kvs as [|e kvs]; [done|]. intros _. simpl strip_first.
  rewrite !encode_cons. simpl. by apply lstrip_ws_app.
Qed.

Lemma strip_first_not_nil kvs : kvs ≠ [] → strip_first kvs ≠ [].
Proof. by destruct kvs. Qed.

Lemma strip_last_not_nil kvs : kvs ≠ [] → strip_last kvs ≠ [].
Proof. destruct kvs as [|e [|e' kvs]]; done. Qed.

Lemma strip_encode kvs :
  kvs ≠ [] → strip (encode kvs) = encode (strip_last (strip_first kvs)).
Proof.
  intros H. unfold strip. rewrite lstrip_encode by done.
  by apply rstrip_encode, strip_first_not_nil.
Qed.

Lemma wf_strip_first kvs : Forall wf_entry kvs → Forall wf_entry (strip_first kvs).
Proof.
  destruct kvs as [|e kvs]; [done|]. intros H. inversion H as [|? ? (Hp & He & Hv) Hr]; subst.
  constructor; [|done]. split_and!; simpl; auto using has_char_lstrip_ws.
Qed.

Lemma wf_strip_last kvs : Forall wf_entry kvs → Forall wf_entry (strip_last kvs).
Proof.
  induction kvs as [|e kvs IH]; [done|]. intros H.
  inversion H as [|? ? (Hp & He & Hv) Hr]; subst.
  destruct kvs as [|e' kvs].
  - constructor; [|done]. split_and!; simpl; auto using has_char_rstrip_ws.
  - constructor; [done|]. by apply IH.
Qed.

Lemma split_encode kvs :
  kvs ≠ [] → Forall wf_entry kvs → split_on pipe (encode kvs) = kv <$> kvs.
Proof.
  intros Hne Hwf. unfold encode. apply split_on_join.
  - by destruct kvs.
  - apply Forall_fmap. eapply Forall_impl; [exact Hwf|].
    intros e (Hp & _ & Hv). unfold kv. simpl.
    by rewrite has_char_app, has_char_cons, Hp, Hv.
Qed.

Lemma add_part_kv m e :
  has_char equals e.1 = false → Sync.add_part m (kv e) = put m e.
Proof.
  intros He. unfold Sync.add_part, kv.
  rewrite has_char_app, has_char_cons, N.eqb_refl, orb_true_r.
  by rewrite split_once_app.
Qed.

Lemma fold_add_part_kv kvs m :
  Forall wf_entry kvs → fold_left Sync.add_part (kv <$> kvs) m = fold_left put kvs m.
Proof.
  revert m. induction kvs as [|e kvs IH]; intros m Hwf; [done|].
  inversion Hwf as [|? ? (_ & He & _) Hr]; subst. simpl.
  rewrite add_part_kv by done. by apply IH.
Qed.

(** Parsing an encoded list: the entries are stored one after the other,
    the first key and the last value stripped. *)
Lemma parse_feats_encode kvs :
  kvs ≠ [] → Forall wf_entry kvs →
  Sync.parse_feats (encode kvs) = fold_left put (strip_last (strip_first kvs)) ∅.
Proof.
  intros Hne Hwf. unfold Sync.parse_feats. cbv zeta.
  rewrite strip_encode by done.
  set (kvs' := strip_last (strip_first kvs)).
  assert (Hne' : kvs' ≠ []) by by apply strip_last_not_nil, strip_first_not_nil.
  assert (Hwf' : Forall wf_entry kvs') by by apply wf_strip_last, wf_strip_first.
  pose proof (has_char_encode kvs' Hne') as Heq.
  rewrite !bool_decide_eq_false_2.
  - simpl. rewrite split_encode by done. by apply fold_add_part_kv.
  - intros E. rewrite E in Heq. vm_compute in Heq. discriminate.
  - intros E. rewrite E in Heq. discriminate.
Qed.

Lemma fold_put_notin kvs m k :
  k ∉ kvs.*1 → fold_left put kvs m !! k = m !! k.
Proof.
  revert m. induction kvs as [|e kvs IH]; intros m; simpl; [done|].
  rewrite not_elem_of_cons. intros [Hne Hk]. rewrite IH by done.
  unfold put. by rewrite lookup_insert_ne.
Qed.

Lemma fold_put_last l1 e l2 m :
  e.1 ∉ l2.*1 → fold_left put (l1 ++ e :: l2) m !! e.1 = Some e.2.
Proof.
  intros Hk. rewrite fold_left_app. simpl. rewrite fold_put_notin by done.
  unfold put. by rewrite lookup_insert_eq.
Qed.

Lemma fold_put_list_to_map kvs :
  NoDup kvs.*1 → fold_left put kvs ∅ = list_to_map kvs.
Proof.
  intros Hnd. apply map_eq. intros k.
  destruct (decide (k ∈ kvs.*1)) as [Hin|Hnin].
  - apply list_elem_of_fmap in Hin as ([k' v] & -> & Hin). simpl.
    rewrite (proj1 (elem_of_list_to_map _ _ _ Hnd) Hin).
    apply list_elem_of_split in Hin as (l1 & l2 & ->).
    apply (fold_put_last l1 (k', v) l2).
    rewrite fmap_app, fmap_cons in Hnd. apply NoDup_app in Hnd as (_ & _ & Hnd).
    by apply NoDup_cons in Hnd as [? _].
  - rewrite fold_put_notin by done.
    rewrite lookup_empty. symmetry. by apply not_elem_of_list_to_map.
Qed.

Lemma format_feats_encode d : d ≠ ∅ → Sync.format_feats d = encode (entries d).
Proof.
  intros Hd. unfold Sync.format_feats, encode, entries.
  rewrite bool_decide_eq_false_2 by done.
  by rewrite <- list_fmap_compose.
Qed.

Lemma entries_perm d : entries d ≡ₚ map_to_list d.
Proof.
  unfold entries, sorted. rewrite merge_sort_Permutation.
  rewrite <- list_fmap_compose.
  assert (E : ((λ k, (k, d !!! k)) ∘ fst) <$> map_to_list d = map_to_list d).
  { rewrite <- (list_fmap_id (map_to_list d)) at 2.
    apply list_fmap_ext. intros i [k v] Hi. simpl.
    assert (Hkv : (k, v) ∈ map_to_list d) by (apply list_elem_of_lookup; eauto).
    apply elem_of_map_to_list in Hkv. by rewrite (lookup_total_correct d k v). }
  by rewrite E.
Qed.

Lemma elem_of_entries d k v : (k, v) ∈ entries d ↔ d !! k = Some v.
Proof. by rewrite entries_perm, elem_of_map_to_list. Qed.

Lemma entries_not_nil d : d ≠ ∅ → entries d ≠ [].
Proof.
  intros Hd He. apply Hd, map_to_list_empty_iff.
  apply Permutation_nil_r. by rewrite <- entries_perm, He.
Qed.

Lemma NoDup_entries d : NoDup (entries d).*1.
Proof. rewrite entries_perm. apply NoDup_fst_map_to_list. Qed.

Lemma list_to_map_entries d : list_to_map (entries d) = d.
Proof.
  rewrite <- (list_to_map_to_list d) at 2.
  apply list_to_map_proper; [apply NoDup_entries|apply entries_perm].
Qed.

Lemma strip_first_id kvs :
  Forall (λ e : str * str, lstrip_ws e.1 = e.1) kvs → strip_first kvs = kvs.
Proof.
  destruct kvs as [|[k v] kvs]; [done|]. intros H.
  inversion H as [|? ? Hk _]; subst. simpl in *. by rewrite Hk.
Qed.

Lemma strip_last_id kvs :
  Forall (λ e : str * str, rstrip_ws e.2 = e.2) kvs → strip_last kvs = kvs.
Proof.
  induction kvs as [|[k v] kvs IH]; [done|]. intros H.
  inversion H as [|? ? Hv Hr]; subst. simpl in Hv.
  destruct kvs as [|e kvs]; simpl.
  - by rewrite Hv.
  - f_equal. by apply IH.
Qed.

(** The round trip, for a map whose keys hold neither "=" nor "|", whose
    values hold no "|", and which [strip] leaves alone at both ends. *)
Lemma parse_format_feats m :
  (∀ k v, m !! k = Some v →
          has_char equals k = false ∧ has_char pipe k = false
          ∧ has_char pipe v = false ∧ lstrip_ws k = k ∧ rstrip_ws v = v) →
  Sync.parse_feats (Sync.format_feats m) = m.
Proof.
  intros Hm. destruct (decide (m = ∅)) as [->|Hne].
  { vm_compute. reflexivity. }
  rewrite format_feats_encode by done.
  assert (Hall : Forall (λ e : str * str,
                   wf_entry e ∧ lstrip_ws e.1 = e.1 ∧ rstrip_ws e.2 = e.2) (entries m)).
  { apply Forall_forall. intros [k v] Hin. apply elem_of_entries in Hin.
    destruct (Hm k v Hin) as (? & ? & ? & ? & ?). by repeat split. }
  rewrite parse_feats_encode.
  - rewrite strip_first_id
      by (eapply Forall_impl; [exact Hall|]; intros e (_ & He & _); exact He).
    rewrite strip_last_id
      by (eapply Forall_impl; [exact Hall|]; intros e (_ & _ & He); exact He).
    rewrite fold_put_list_to_map by apply NoDup_entries.
    apply list_to_map_entries.
  - by apply entries_not_nil.
  - eapply Forall_impl; [exact Hall|]. intros e (He & _). exact He.
Qed.

(** C2, as stated, fails: neither map below has a "=" in a key or a value,
    and neither comes back.  A "|" inside a key cuts the entry in two, and a
    space before the first key is stripped with the whole string. *)
Lemma roundtrip_counterexample :
  Sync.format_feats ex_feats_pipe = lit "a|b=c"
  ∧ ex_feats_pipe !! lit "a|b" = Some (lit "c")
  ∧ Sync.parse_feats (Sync.format_feats ex_feats_pipe) !! lit "a|b" = None
  ∧ Sync.parse_feats (Sync.format_feats ex_feats_pipe) !! lit "b" = Some (lit "c")
  ∧ Sync.format_feats ex_feats_space = lit " a=b"
  ∧ ex_feats_space !! lit " a" = Some (lit "b")
  ∧ Sync.parse_feats (Sync.format_feats ex_feats_space) !! lit " a" = None
  ∧ Sync.parse_feats (Sync.format_feats ex_feats_space) !! lit "a" = Some (lit "b").
Proof. split_and!; vm_compute; reflexivity. Qed.

(** C2, amended. For every finite string-to-string mapping in which no key
    and no value contains "=" or "|", no key begins with a whitespace
    character and no value ends with one, parsing the serialized form
    gives back the same mapping. *)
Theorem parse_format_roundtrip (m : gmap str str) :
  (∀ k v, m !! k = Some v →
          has_char equals k = false ∧ has_char equals v = false
          ∧ has_char pipe k = false ∧ has_char pipe v = false
          ∧ lstrip_ws k = k ∧ rstrip_ws v = v) →
  Sync.parse_feats (Sync.format_feats m) = m.
Proof.
  intros Hm. apply parse_format_feats. intros k v Hkv.
  destruct (Hm k v Hkv) as (? & ? & ? & ? & ? & ?). by split_and!.
Qed.

Lemma ex_feats_plain k v :
  ex_feats !! k = Some v →
  has_char equals k = false ∧ has_char equals v = false
  ∧ has_char pipe k = false ∧ has_char pipe v = false
  ∧ lstrip_ws k = k ∧ rstrip_ws v = v.
Proof.
  unfold ex_feats. intros H.
  apply lookup_insert_Some in H as [[<- <-]|[_ H]]; [by vm_compute|].
  apply lookup_insert_Some in H as [[<- <-]|[_ H]]; [by vm_compute|].
  apply lookup_singleton_Some in H as [<- <-]. by vm_compute.
Qed.

Lemma parse_format_roundtrip_witness :
  Sync.parse_feats (Sync.format_feats ex_feats) = ex_feats.
Proof. apply (parse_format_roundtrip ex_feats). exact ex_feats_plain. Defined.

(** ** Where the characters of a parsed entry come from *)

Lemma split_on_has_char c sep s :
  has_char c s = false → Forall (λ p, has_char c p = false) (split_on sep s).
Proof.
  induction s as [|x s IH]; simpl.
  - intros _. by repeat constructor.
  - rewrite orb_false_iff. intros [Hx Hs]. specialize (IH Hs).
    destruct (N.eqb x sep).
    + by constructor.
    + destruct (split_on sep s) as [|w ws]; [by repeat constructor; simpl; rewrite Hx|].
      inversion IH; subst. constructor; [|done]. simpl. by rewrite Hx.
Qed.

Lemma fold_add_part_entry parts m k v :
  fold_left Sync.add_part parts m !! k = Some v →
  m !! k = Some v
  ∨ ∃ part, part ∈ parts ∧ part = k ++ equals :: v ∧ has_char equals k = false.
Proof.
  revert m. induction parts as [|p parts IH]; intros m; simpl; [by left|].
  intros H. destruct (IH _ H) as [Hm|(part & Hin & Hp)].
  - unfold Sync.add_part in Hm. destruct (has_char equals p) eqn:He; [|by left].
    destruct (split_once_present _ _ He) as (k0 & v0 & -> & Hk0 & Hsp).
    rewrite Hsp in Hm. apply lookup_insert_Some in Hm as [[<- <-]|[_ Hm]]; [|by left].
    right. eexists. split; [apply list_elem_of_here|done].
  - right. exists part. split; [by apply list_elem_of_further|done].
Qed.

(** Every entry of a parsed feature map is one "|"-separated part [k=v] of
    the stripped string, cut at its first "=". *)
Lemma parse_feats_entry s k v :
  Sync.parse_feats s !! k = Some v →
  ∃ part, part ∈ split_on pipe (strip s) ∧ part = k ++ equals :: v
          ∧ has_char equals k = false.
Proof.
  unfold Sync.parse_feats. cbv zeta.
  destruct (bool_decide (strip s = []) || bool_decide (strip s = lit "_")).
  - by rewrite lookup_empty.
  - intros H. apply fold_add_part_entry in H as [H|H]; [|done].
    by rewrite lookup_empty in H.
Qed.

Lemma parse_feats_wf s k v : Sync.parse_feats s !! k = Some v → wf_entry (k, v).
Proof.
  intros H. destruct (parse_feats_entry _ _ _ H) as (part & Hin & -> & Hk).
  pose proof (split_on_parts pipe (strip s)) as Hall.
  rewrite Forall_forall in Hall. specialize (Hall _ Hin).
  rewrite has_char_app, has_char_cons in Hall.
  apply orb_false_iff in Hall as [Hpk Hall]. apply orb_false_iff in Hall as [_ Hpv].
  by split_and!.
Qed.

Lemma parse_feats_has_char c s k v :
  has_char c s = false → Sync.parse_feats s !! k = Some v →
  has_char c k = false ∧ has_char c v = false.
Proof.
  intros Hc H. destruct (parse_feats_entry _ _ _ H) as (part & Hin & -> & _).
  pose proof (split_on_has_char c pipe (strip s) (has_char_strip _ _ Hc)) as Hall.
  rewrite Forall_forall in Hall. specialize (Hall _ Hin).
  rewrite has_char_app, has_char_cons in Hall.
  apply orb_false_iff in Hall as [Hck Hall]. apply orb_false_iff in Hall as [_ Hcv].
  done.
Qed.

Lemma has_char_encode_other c kvs :
  c ≠ equals → c ≠ pipe →
  Forall (λ e : str * str, has_char c e.1 = false ∧ has_char c e.2 = false) kvs →
  has_char c (encode kvs) = false.
Proof.
  intros Hce Hcp. induction kvs as [|e kvs IH]; [done|].
  intros Hall. inversion Hall as [|? ? [Hk Hv] Hr]; subst.
  assert (Hkv : has_char c (kv e) = false).
  { unfold kv. rewrite has_char_app, has_char_cons, Hk, Hv.
    by rewrite (proj2 (N.eqb_neq _ _) Hce). }
  destruct kvs as [|e' kvs]; [done|].
  rewrite encode_cons2, has_char_app, has_char_cons, Hkv, IH by done.
  by rewrite (proj2 (N.eqb_neq _ _) Hcp).
Qed.

Lemma has_char_format_feats c d :
  c ≠ equals → c ≠ pipe → c ≠ underscore →
  (∀ k v, d !! k = Some v → has_char c k = false ∧ has_char c v = false) →
  has_char c (Sync.format_feats d) = false.
Proof.
  intros Hce Hcp Hcu Hd. destruct (decide (d = ∅)) as [->|Hne].
  - change (Sync.format_feats ∅) with [underscore]. simpl.
    by rewrite (proj2 (N.eqb_neq _ _) Hcu).
  - rewrite format_feats_encode by done. apply has_char_encode_other; [done..|].
    apply Forall_forall. intros [k v] Hin. apply elem_of_entries in Hin. by apply Hd.
Qed.

(** ** What a rewritten line looks like *)

Lemma line_changed_resolved lookup ln :
  line_changed lookup ln = true →
  ∃ key g n r, resolved lookup ln = Some (key, (g, n, r))
    ∧ synced_feats lookup ln
      = <[lit "rat" := r]> (<[lit "num" := n]> (<[lit "gen" := g]>
          (Sync.parse_feats (split_on tab ln !!! 5)))).
Proof.
  unfold line_changed, synced_feats.
  destruct (resolved lookup ln) as [[key [[g n] r]]|]; [|done].
  intros _. exists key, g, n, r. by rewrite merge_triple_spec.
Qed.

Lemma synced_feats_entry lookup ln key g n r k v :
  resolved lookup ln = Some (key, (g, n, r)) →
  synced_feats lookup ln !! k = Some v →
  (k = lit "gen" ∧ v = g) ∨ (k = lit "num" ∧ v = n) ∨ (k = lit "rat" ∧ v = r)
  ∨ Sync.parse_feats (split_on tab ln !!! 5) !! k = Some v.
Proof.
  intros Hres. unfold synced_feats. rewrite Hres, merge_triple_spec. simpl.
  intros H.
  apply lookup_insert_Some in H as [[<- <-]|[_ H]]; [tauto|].
  apply lookup_insert_Some in H as [[<- <-]|[_ H]]; [tauto|].
  apply lookup_insert_Some in H as [[<- <-]|[_ H]]; tauto.
Qed.

Lemma column_has_no_tab ln i :
  i < length (split_on tab ln) → has_char tab (split_on tab ln !!! i) = false.
Proof.
  intros Hi.
  by apply (Forall_lookup_total_1 (λ p, has_char tab p = false) _ _ (split_on_parts tab ln)).
Qed.

Lemma rewritten_feats_no_tab lookup ln key g n r :
  lookup_values (λ v, has_char tab v = false) lookup →
  resolved lookup ln = Some (key, (g, n, r)) →
  has_char tab (Sync.format_feats (synced_feats lookup ln)) = false.
Proof.
  intros Hlv Hres.
  pose proof (proj1 (resolved_Some _ _ _ _) Hres) as (_ & _ & Hlen & _ & _ & Hl).
  destruct (Hlv _ _ _ _ Hl) as (Hg & Hn & Hr).
  apply has_char_format_feats; [done..|].
  intros k v Hkv.
  destruct (synced_feats_entry _ _ _ _ _ _ _ _ Hres Hkv)
    as [[-> ->]|[[-> ->]|[[-> ->]|Hp]]]; [done..|].
  eapply parse_feats_has_char; [|exact Hp]. apply column_has_no_tab. lia.
Qed.

(** The columns of a rewritten line are the columns of the input line, with
    the feature column replaced. *)
Lemma line_out_columns lookup ln :
  lookup_values (λ v, has_char tab v = false) lookup →
  line_changed lookup ln = true →
  split_on tab (line_out lookup ln)
  = <[5 := Sync.format_feats (synced_feats lookup ln)]> (split_on tab ln).
Proof.
  intros Hlv Hch. unfold line_out. rewrite Hch.
  destruct (line_changed_resolved _ _ Hch) as (key & g & n & r & Hres & _).
  pose proof (proj1 (resolved_Some _ _ _ _) Hres) as (_ & _ & Hlen & _).
  apply split_on_join.
  - intros E. apply (f_equal length) in E. rewrite length_insert in E. simpl in E. lia.
  - apply Forall_insert; [apply split_on_parts|].
    by eapply rewritten_feats_no_tab.
Qed.

(** C9, as stated, fails for a lookup with a tab inside a value: the value
    is written into column 6 as it is, so the output line has eleven
    columns and its seventh column is no longer the input's. *)
Lemma sync_frame_counterexample :
  Sync.out (Sync.sync_conllu_with_magold [ex_line_stale] ex_lookup_tab)
  = [tsv [lit "1"; lit "ABC"; lit "lemma1"; lit "NOM"; lit "NOM"; lit "gen=f";
          lit "x|num=p|rat=i"; lit "2"; lit "MOD"; lit "_"; lit "surface_plus_bw=XYZ"]]
  ∧ split_on tab ex_line_stale !! 6 = Some (lit "2")
  ∧ length (split_on tab ex_line_stale) = 10.
Proof. split_and!; vm_compute; reflexivity. Qed.

(** C9, amended. For every list of input lines and every lookup whose values
    contain no tab, the output has as many lines as the input, and the i-th
    output line is the i-th input line, or has the same number of
    tab-separated columns and the same columns except the sixth. *)
Theorem sync_frame lines lookup :
  lookup_values (λ v, has_char tab v = false) lookup →
  let out := Sync.out (Sync.sync_conllu_with_magold lines lookup) in
  length out = length lines
  ∧ ∀ i ln, lines !! i = Some ln →
      ∃ o, out !! i = Some o
           ∧ (o = ln
              ∨ (length (split_on tab o) = length (split_on tab ln)
                 ∧ ∀ j, j ≠ 5 → split_on tab o !! j = split_on tab ln !! j)).
Proof.
  intros Hlv out. destruct (sync_effect lookup lines) as (Ho & _).
  unfold out. rewrite Ho. split.
  - apply length_fmap.
  - intros i ln Hi. exists (line_out lookup ln). split.
    + by rewrite list_lookup_fmap, Hi.
    + destruct (line_changed lookup ln) eqn:Hch.
      * right. rewrite line_out_columns by done. split.
        -- apply length_insert.
        -- intros j Hj. by apply list_lookup_insert_ne.
      * left. unfold line_out. by rewrite Hch.
Qed.

Lemma ex_lookup_no_tab : lookup_values (λ v, has_char tab v = false) ex_lookup.
Proof.
  intros key g n r H. unfold ex_lookup in H.
  apply lookup_singleton_Some in H as [_ [= <- <- <-]]. by vm_compute.
Qed.

Lemma sync_frame_witness :
  let out := Sync.out (Sync.sync_conllu_with_magold [ex_line_stale] ex_lookup) in
  length out = length [ex_line_stale]
  ∧ ∀ i ln, [ex_line_stale] !! i = Some ln →
      ∃ o, out !! i = Some o
           ∧ (o = ln
              ∨ (length (split_on tab o) = length (split_on tab ln)
                 ∧ ∀ j, j ≠ 5 → split_on tab o !! j = split_on tab ln !! j)).
Proof. exact (sync_frame [ex_line_stale] ex_lookup ex_lookup_no_tab). Defined.

(** ** Idempotence *)

Lemma clean_no_tab v : clean v → has_char tab v = false.
Proof.
  intros [_ Hws]. apply has_char_false. intros Hin. by specialize (Hws _ Hin).
Qed.

Lemma strip_first_app l1 e l2 :
  lstrip_ws e.1 = e.1 → strip_first (l1 ++ e :: l2) = strip_first l1 ++ e :: l2.
Proof.
  intros He. destruct l1 as [|e1 l1]; simpl; [|done].
  rewrite He. by destruct e.
Qed.

Lemma strip_last_app l1 e l2 :
  rstrip_ws e.2 = e.2 → strip_last (l1 ++ e :: l2) = l1 ++ e :: strip_last l2.
Proof.
  intros He. induction l1 as [|e1 l1 IH].
  - simpl. destruct l2 as [|e2 l2]; [|done]. rewrite He. by destruct e.
  - change ((e1 :: l1) ++ e :: l2) with (e1 :: (l1 ++ e :: l2)).
    destruct (l1 ++ e :: l2) as [|x xs] eqn:E; [by destruct l1|].
    change (strip_last (e1 :: x :: xs)) with (e1 :: strip_last (x :: xs)).
    by rewrite IH.
Qed.

Lemma strip_last_keys l : (strip_last l).*1 = l.*1.
Proof.
  induction l as [|e l IH]; [done|].
  destruct l as [|e' l]; [done|].
  change (strip_last (e :: e' :: l)) with (e :: strip_last (e' :: l)).
  by rewrite !fmap_cons, IH.
Qed.

(** Reading one key back from the serialized map: enough that the entries
    are well formed and that [strip] leaves this key and its value alone. *)
Lemma parse_format_lookup d k v :
  d !! k = Some v →
  (∀ k' v', d !! k' = Some v' → wf_entry (k', v')) →
  lstrip_ws k = k → rstrip_ws v = v →
  Sync.parse_feats (Sync.format_feats d) !! k = Some v.
Proof.
  intros Hkv Hwf Hk Hv.
  assert (Hne : d ≠ ∅) by (intros ->; by rewrite lookup_empty in Hkv).
  rewrite format_feats_encode by done.
  rewrite parse_feats_encode.
  - pose proof (NoDup_entries d) as Hnd.
    apply elem_of_entries, list_elem_of_split in Hkv as (l1 & l2 & E).
    rewrite E in Hnd |- *.
    rewrite strip_first_app, strip_last_app by done.
    apply (fold_put_last (strip_first l1) (k, v) (strip_last l2)).
    rewrite strip_last_keys. simpl.
    rewrite fmap_app, fmap_cons in Hnd. apply NoDup_app in Hnd as (_ & _ & Hnd).
    by apply NoDup_cons in Hnd as [? _].
  - by apply entries_not_nil.
  - apply Forall_forall. intros [k' v'] Hin. apply elem_of_entries in Hin. by apply Hwf.
Qed.

Lemma has_char_join c sep parts p :
  p ∈ parts → has_char c p = true → has_char c (join sep parts) = true.
Proof.
  intros Hin Hp. induction parts as [|q parts IH]; [by apply elem_of_nil in Hin|].
  destruct parts as [|q' parts].
  - apply list_elem_of_singleton in Hin as ->. done.
  - rewrite join_cons2, !has_char_app.
    apply elem_of_cons in Hin as [->|Hin].
    + by rewrite Hp.
    + rewrite IH by done. by rewrite !orb_true_r.
Qed.

Lemma strip_not_blank c s : has_char c s = true → isspace c = false → strip s ≠ [].
Proof.
  intros Hc Hsp. apply has_char_true, list_elem_of_split in Hc as (a & b & ->).
  rewrite strip_app by done. by destruct (lstrip_ws a).
Qed.

Lemma startswith_hash_first_column c0 x y :
  startswith (lit "#") (c0 ++ tab :: x) = startswith (lit "#") (c0 ++ tab :: y).
Proof. by destruct c0. Qed.

Lemma synced_feats_wf lookup ln key g n r :
  lookup_values clean lookup →
  resolved lookup ln = Some (key, (g, n, r)) →
  ∀ k v, synced_feats lookup ln !! k = Some v → wf_entry (k, v).
Proof.
  intros Hlv Hres k v Hkv.
  pose proof (proj1 (resolved_Some _ _ _ _) Hres) as (_ & _ & _ & _ & _ & Hl).
  destruct (Hlv _ _ _ _ Hl) as ([Hg _] & [Hn _] & [Hr _]).
  destruct (synced_feats_entry _ _ _ _ _ _ _ _ Hres Hkv)
    as [[-> ->]|[[-> ->]|[[-> ->]|Hp]]]; [by split_and!..|].
  by eapply parse_feats_wf.
Qed.

(** The line the loop body writes is one it would not change again. *)
Lemma line_out_stable lookup ln :
  lookup_values clean lookup →
  line_changed lookup (line_out lookup ln) = false.
Proof.
  intros Hlv. destruct (line_changed lookup ln) eqn:Hch.
  2:{ unfold line_out. by rewrite Hch. }
  assert (Hlt : lookup_values (λ v, has_char tab v = false) lookup).
  { intros key g n r Hl. destruct (Hlv _ _ _ _ Hl) as (? & ? & ?).
    auto using clean_no_tab. }
  pose proof (line_out_columns _ _ Hlt Hch) as Hcols.
  destruct (line_changed_resolved _ _ Hch) as (key & g & n & r & Hres & Hsf).
  pose proof (proj1 (resolved_Some _ _ _ _) Hres)
    as (Hnb & Hhash & Hlen & Hkey & Hkne & Hl).
  destruct (Hlv _ _ _ _ Hl) as ([_ Hgs] & [_ Hns] & [_ Hrs]).
  set (F := Sync.format_feats (synced_feats lookup ln)) in *.
  set (o := line_out lookup ln) in *.
  assert (Ho : o = join [tab] (<[5 := F]> (split_on tab ln))).
  { unfold o, line_out. by rewrite Hch. }
  assert (HF : has_char equals F = true).
  { unfold F. rewrite format_feats_encode.
    - apply has_char_encode, entries_not_nil. rewrite Hsf. apply insert_non_empty.
    - rewrite Hsf. apply insert_non_empty. }
  assert (Hres' : resolved lookup o = Some (key, (g, n, r))).
  { apply resolved_Some. rewrite Hcols. split_and!.
    - apply (strip_not_blank equals); [|done]. rewrite Ho.
      apply (has_char_join _ _ _ F); [|done].
      apply list_elem_of_insert. lia.
    - assert (Hsame : startswith (lit "#") o = startswith (lit "#") ln);
        [|by rewrite Hsame].
      rewrite Ho. pose proof (join_split_on tab ln) as Hj.
      destruct (split_on tab ln) as [|c0 [|c1 t]]; simpl in Hlen; try lia.
      rewrite <- Hj.
      change (<[5:=F]> (c0 :: c1 :: t)) with (c0 :: <[4:=F]> (c1 :: t)).
      destruct (<[4:=F]> (c1 :: t)) as [|c1' t'] eqn:E.
      { apply (f_equal length) in E. rewrite length_insert in E. done. }
      rewrite !join_cons2. apply startswith_hash_first_column.
    - by rewrite length_insert.
    - by rewrite list_lookup_total_insert_ne.
    - done.
    - done. }
  unfold line_changed. rewrite Hres', merge_triple_spec. simpl.
  rewrite Hcols, list_lookup_total_insert_eq by lia.
  pose proof (synced_feats_wf _ _ _ _ _ _ Hlv Hres) as Hwf.
  rewrite bool_decide_eq_true_2; [done|].
  pose proof gen_ne_num. pose proof gen_ne_rat. pose proof num_ne_rat.
  split_and!; apply parse_format_lookup;
    try done; try (by apply rstrip_ws_id);
    rewrite Hsf; by simplify_map_eq.
Qed.

Lemma filter_changed_stable lookup lines :
  lookup_values clean lookup →
  filter (λ ln, line_changed lookup ln = true) (line_out lookup <$> lines) = [].
Proof.
  intros Hlv. induction lines as [|ln lines IH]; [done|].
  rewrite fmap_cons, filter_cons, IH.
  rewrite decide_False; [done|]. by rewrite line_out_stable.
Qed.

Lemma line_out_idem lookup ln :
  lookup_values clean lookup →
  line_out lookup (line_out lookup ln) = line_out lookup ln.
Proof.
  intros Hlv. unfold line_out at 1. by rewrite line_out_stable.
Qed.

(** C3, as stated, fails: with the gender value "f|x" the first run writes
    "gen=f|x|num=p|rat=i"; the second run reads gender "f" from it, finds
    it different from "f|x" and counts one more update.  Likewise with a
    rationality value that ends with a space, which is stripped with the
    feature column on the second run. *)
Lemma sync_idempotent_counterexample :
  ex_lookup_pipe !! lit "XYZ" = Some (lit "f|x", lit "p", lit "i")
  ∧ Sync.out (Sync.sync_conllu_with_magold [ex_line_stale] ex_lookup_pipe)
    = [tsv [lit "1"; lit "ABC"; lit "lemma1"; lit "NOM"; lit "NOM";
            lit "gen=f|x|num=p|rat=i"; lit "2"; lit "MOD"; lit "_";
            lit "surface_plus_bw=XYZ"]]
  ∧ Sync.updated
      (Sync.sync_conllu_with_magold
         (Sync.out (Sync.sync_conllu_with_magold [ex_line_stale] ex_lookup_pipe))
         ex_lookup_pipe)
    = 1
  ∧ Sync.updated
      (Sync.sync_conllu_with_magold
         (Sync.out (Sync.sync_conllu_with_magold [ex_line_stale] ex_lookup_space))
         ex_lookup_space)
    = 1.
Proof. split_and!; vm_compute; reflexivity. Qed.

(** C3, amended. For every list of tree lines and every lookup whose values
    contain no "|" and no whitespace character, a second run over the
    output of the first, with the same lookup, updates nothing and returns
    the same lines. *)
Theorem sync_idempotent lines lookup :
  lookup_values clean lookup →
  let r1 := Sync.sync_conllu_with_magold lines lookup in
  let r2 := Sync.sync_conllu_with_magold (Sync.out r1) lookup in
  Sync.updated r2 = 0 ∧ Sync.out r2 = Sync.out r1.
Proof.
  intros Hlv r1 r2.
  destruct (sync_effect lookup lines) as (Ho1 & _). fold r1 in Ho1.
  destruct (sync_effect lookup (Sync.out r1)) as (Ho2 & _ & Hu2). fold r2 in Ho2, Hu2.
  split.
  - rewrite Hu2, Ho1. by rewrite filter_changed_stable.
  - rewrite Ho2, Ho1, <- list_fmap_compose.
    apply list_fmap_ext. intros i ln _. simpl. by apply line_out_idem.
Qed.

Lemma ex_lookup_clean : lookup_values clean ex_lookup.
Proof.
  intros key g n r H. unfold ex_lookup in H.
  apply lookup_singleton_Some in H as [_ [= <- <- <-]].
  split_and!; (split; [by vm_compute|]); intros c Hc;
    apply list_elem_of_singleton in Hc as ->; by vm_compute.
Qed.

Lemma sync_idempotent_witness :
  let r1 := Sync.sync_conllu_with_magold [ex_line_stale; ex_mwt_line] ex_lookup in
  let r2 := Sync.sync_conllu_with_magold (Sync.out r1) ex_lookup in
  Sync.updated r2 = 0 ∧ Sync.out r2 = Sync.out r1.
Proof. exact (sync_idempotent [ex_line_stale; ex_mwt_line] ex_lookup ex_lookup_clean). Defined.

(** ** The lookups the builder makes *)

Lemma nonspace_run_chars s c : c ∈ Sync.nonspace_run s → isspace c = false.
Proof.
  induction s as [|x s IH]; simpl; [by intros ?%elem_of_nil|].
  destruct (isspace x) eqn:Hx; [by intros ?%elem_of_nil|].
  intros [->|Hin]%elem_of_cons; auto.
Qed.

Lemma search_from_chars ud key prev s g c :
  Sync.search_from ud key prev s = Some g → c ∈ g → isspace c = false.
Proof.
  revert prev. induction s as [|x s IH]; intros prev; simpl.
  - unfold Sync.match_here. destruct (_ && _); [|done].
    destruct (Sync.nonspace_run _) eqn:E; [done|]. intros [= <-]. rewrite <- E.
    apply nonspace_run_chars.
  - destruct (Sync.match_here ud key prev (x :: s)) as [g'|] eqn:Hm.
    + intros [= <-]. unfold Sync.match_here in Hm. destruct (_ && _); [|done].
      destruct (Sync.nonspace_run _) eqn:E; [done|]. injection Hm as <-. rewrite <- E.
      apply nonspace_run_chars.
    + apply IH.
Qed.

Lemma extract_field_chars ud line key g c :
  Sync.extract_field ud line key = Some g → c ∈ g → isspace c = false.
Proof. apply search_from_chars. Qed.

Lemma lookup_step_no_space ud lookup line :
  lookup_values (λ v, ∀ c, c ∈ v → isspace c = false) lookup →
  lookup_values (λ v, ∀ c, c ∈ v → isspace c = false) (Sync.lookup_step ud lookup line).
Proof.
  intros Hlv. unfold Sync.lookup_step. cbv zeta.
  destruct (bool_decide (strip line = []) || negb (startswith (lit "*") (strip line)));
    [done|].
  destruct (Sync.unusable _ || Sync.unusable _ || Sync.unusable _); [done|].
  destruct (Sync.extract_field ud (strip line) (lit "gen")) as [g|] eqn:Hg; [|done].
  destruct (Sync.extract_field ud (strip line) (lit "num")) as [n|] eqn:Hn; [|done].
  destruct (Sync.extract_field ud (strip line) (lit "rat")) as [r|] eqn:Hr; [|done].
  assert (Hval : ∀ (m : gmap str (str * str * str)) k,
            lookup_values (λ v, ∀ c, c ∈ v → isspace c = false) m →
            lookup_values (λ v, ∀ c, c ∈ v → isspace c = false) (<[k := (g, n, r)]> m)).
  { intros m k Hm key g' n' r' H.
    apply lookup_insert_Some in H as [[_ [= <- <- <-]]|[_ H]]; [|by eapply Hm].
    split_and!; intros c; by eapply extract_field_chars. }
  set (L := if truthy (Sync.extract_field ud (strip line) (lit "diac")) then _ else lookup).
  assert (HL : lookup_values (λ v, ∀ c, c ∈ v → isspace c = false) L).
  { unfold L. destruct (truthy _); [|done].
    destruct (Sync.extract_field ud (strip line) (lit "diac")); [|done]. by apply Hval. }
  clearbody L.
  destruct (truthy (if truthy _ then _ else _)); [|done].
  destruct (if truthy _ then _ else _); [|done]. by apply Hval.
Qed.

(** Every value of a lookup the builder makes is free of whitespace, hence
    of tabs; it may hold a "|". *)
Lemma build_magold_lookup_no_space ud lines :
  lookup_values (λ v, ∀ c, c ∈ v → isspace c = false)
    (Sync.build_magold_lookup ud lines).
Proof.
  unfold Sync.build_magold_lookup.
  assert (H0 : lookup_values (λ v, ∀ c, c ∈ v → isspace c = false)
                 (∅ : gmap str (str * str * str))).
  { intros key g n r H. by rewrite lookup_empty in H. }
  revert H0. generalize (∅ : gmap str (str * str * str)).
  induction lines as [|line lines IH]; intros m Hm; simpl; [done|].
  by apply IH, lookup_step_no_space.
Qed.

Lemma build_magold_lookup_no_tab ud lines :
  lookup_values (λ v, has_char tab v = false) (Sync.build_magold_lookup ud lines).
Proof.
  intros key g n r H.
  destruct (build_magold_lookup_no_space ud lines key g n r H) as (Hg & Hn & Hr).
  split_and!; apply has_char_false; intros Hin;
    [specialize (Hg _ Hin)|specialize (Hn _ Hin)|specialize (Hr _ Hin)]; done.
Qed.

(** ** The examples do not depend on the Unicode database *)

(** The inputs of the examples are pure ASCII, and no function of the
    model looks a pure-ASCII character up in the database. *)
Lemma bw_key_example_any_data ud :
  Sync.extract_field ud (strip ex_magold_plus_line) (lit "bw") = Some (lit "++ab/NOUN")
  ∧ Sync.build_magold_lookup ud [ex_magold_plus_line] !! lit "+ab" = None
  ∧ Sync.build_magold_lookup ud [ex_magold_plus_line] !! lit "ab"
    = Some (lit "f", lit "s", lit "i").
Proof. split_and!; vm_compute; reflexivity. Qed.

Lemma headless_example_any_data ud :
  isdigit ud (split_on tab ex_headless_line !!! 6) = false
  ∧ Pairs.main ud [ex_zero_line; ex_headless_line] = Ok [ex_zero_row].
Proof. split_and!; vm_compute; reflexivity. Qed.

Lemma pipe_lookup_example_any_data ud :
  Sync.build_magold_lookup ud [ex_magold_pipe_line] = ex_lookup_pipe.
Proof. vm_compute. reflexivity. Qed.

(** ** The merged map, read back from the rewritten line *)

(** When the lookup's values are clean and [strip] leaves the parsed keys
    and values alone, the feature column of a rewritten line parses back to
    the merged map. *)
Lemma synced_feats_reparse lookup ln key g n r :
  lookup_values clean lookup →
  resolved lookup ln = Some (key, (g, n, r)) →
  (∀ k v, Sync.parse_feats (split_on tab ln !!! 5) !! k = Some v →
          lstrip_ws k = k ∧ rstrip_ws v = v) →
  Sync.parse_feats (Sync.format_feats (synced_feats lookup ln))
  = synced_feats lookup ln.
Proof.
  intros Hlv Hres Hst. apply parse_format_feats. intros k v Hkv.
  destruct (synced_feats_wf _ _ _ _ _ _ Hlv Hres k v Hkv) as (Hp & He & Hv).
  simpl in *. split_and!; [done..| |].
  - pose proof (proj1 (resolved_Some _ _ _ _) Hres) as (_ & _ & _ & _ & _ & Hl).
    destruct (synced_feats_entry _ _ _ _ _ _ _ _ Hres Hkv)
      as [[-> ->]|[[-> ->]|[[-> ->]|Hpf]]]; [done..|].
    by destruct (Hst _ _ Hpf).
  - pose proof (proj1 (resolved_Some _ _ _ _) Hres) as (_ & _ & _ & _ & _ & Hl).
    destruct (Hlv _ _ _ _ Hl) as ([_ Hg] & [_ Hn] & [_ Hr]).
    destruct (synced_feats_entry _ _ _ _ _ _ _ _ Hres Hkv)
      as [[-> ->]|[[-> ->]|[[-> ->]|Hpf]]]; [by apply rstrip_ws_id..|].
    by destruct (Hst _ _ Hpf).
Qed.

Lemma clean_lookup_no_tab lookup :
  lookup_values clean lookup → lookup_values (λ v, has_char tab v = false) lookup.
Proof.
  intros Hlv key g n r Hl. destruct (Hlv _ _ _ _ Hl) as (? & ? & ?).
  auto using clean_no_tab.
Qed.

Lemma line_out_feature_column lookup ln :
  lookup_values clean lookup →
  line_changed lookup ln = true →
  split_on tab (line_out lookup ln) !!! 5 = Sync.format_feats (synced_feats lookup ln).
Proof.
  intros Hlv Hch.
  rewrite line_out_columns by auto using clean_lookup_no_tab.
  destruct (line_changed_resolved _ _ Hch) as (key & g & n & r & Hres & _).
  pose proof (proj1 (resolved_Some _ _ _ _) Hres) as (_ & _ & Hlen & _).
  apply list_lookup_total_insert_eq. lia.
Qed.

(** Under the same conditions the feature column of the appended line,
    rewritten or not, parses to the map the loop body holds. *)
Lemma line_out_reparse lookup ln :
  lookup_values clean lookup →
  (∀ k v, Sync.parse_feats (split_on tab ln !!! 5) !! k = Some v →
          lstrip_ws k = k ∧ rstrip_ws v = v) →
  Sync.parse_feats (split_on tab (line_out lookup ln) !!! 5) = synced_feats lookup ln.
Proof.
  intros Hlv Hst. destruct (line_changed lookup ln) eqn:Hch.
  - rewrite line_out_feature_column by done.
    destruct (line_changed_resolved _ _ Hch) as (key & g & n & r & Hres & _).
    by eapply synced_feats_reparse.
  - unfold line_out. rewrite Hch. unfold synced_feats.
    destruct (resolved lookup ln) as [[key [[g n] r]]|] eqn:Hres; [|done].
    unfold line_changed in Hch. rewrite Hres, merge_triple_spec in Hch. simpl in Hch.
    rewrite merge_triple_spec. simpl.
    apply negb_false_iff, bool_decide_eq_true in Hch as (Hg & Hn & Hr).
    rewrite (insert_id _ (lit "gen")) by done.
    rewrite (insert_id _ (lit "num")) by done.
    by rewrite (insert_id _ (lit "rat")).
Qed.

Lemma ex_line_case_plain k v :
  Sync.parse_feats (split_on tab ex_line_case !!! 5) !! k = Some v →
  lstrip_ws k = k ∧ rstrip_ws v = v.
Proof.
  assert (Sync.parse_feats (split_on tab ex_line_case !!! 5)
          = <[lit "gen" := lit "m"]> {[ lit "case" := lit "nom" ]}) as ->
    by (vm_compute; reflexivity).
  intros H.
  apply lookup_insert_Some in H as [[<- <-]|[_ H]]; [by vm_compute|].
  apply lookup_singleton_Some in H as [<- <-]. by vm_compute.
Qed.

(** C8, as stated, fails for the feature map read from the synchronized
    line.  The lookup builder takes any run of non-whitespace as a value:
    from the tag gen:f|case=acc|zzz=1 it stores a gender that, once
    written into the column, reads back as three features, so that case
    changes from nom to acc and zzz is a new key.  And with a clean lookup,
    a feature name that starts with a space is sorted to the front of the
    column, where the parser strips the space: the name " b" is lost and
    the name "b" is new. *)
Lemma synced_feats_keys_counterexample :
  Sync.out (Sync.sync_conllu_with_magold [ex_line_case] ex_lookup_feats)
  = [ex_line_case_merged]
  ∧ Sync.parse_feats (split_on tab ex_line_case !!! 5) !! lit "case" = Some (lit "nom")
  ∧ Sync.parse_feats (split_on tab ex_line_case_merged !!! 5) !! lit "case"
    = Some (lit "acc")
  ∧ Sync.parse_feats (split_on tab ex_line_case !!! 5) !! lit "zzz" = None
  ∧ Sync.parse_feats (split_on tab ex_line_case_merged !!! 5) !! lit "zzz"
    = Some (lit "1")
  ∧ Sync.out (Sync.sync_conllu_with_magold [ex_line_space] ex_lookup)
    = [ex_line_space_merged]
  ∧ Sync.parse_feats (split_on tab ex_line_space !!! 5) !! lit " b" = Some (lit "2")
  ∧ Sync.parse_feats (split_on tab ex_line_space_merged !!! 5) !! lit " b" = None
  ∧ Sync.parse_feats (split_on tab ex_line_space !!! 5) !! lit "b" = None
  ∧ Sync.parse_feats (split_on tab ex_line_space_merged !!! 5) !! lit "b"
    = Some (lit "2").
Proof. split_and!; vm_compute; reflexivity. Qed.

(** C8, amended. When no value of the lookup holds "|" or whitespace, and
    no feature name parsed from a line's feature column starts with
    whitespace and no feature value ends with it, the feature map parsed
    from the feature column of the output line at the same position has no
    key outside the line's original keys and gen, num, rat, and gives every
    key other than gen, num, rat the value it had. *)
Theorem synced_feats_keys lookup lines i ln :
  lookup_values clean lookup →
  lines !! i = Some ln →
  (∀ k v, Sync.parse_feats (split_on tab ln !!! 5) !! k = Some v →
          lstrip_ws k = k ∧ rstrip_ws v = v) →
  ∃ o, Sync.out (Sync.sync_conllu_with_magold lines lookup) !! i = Some o
    ∧ dom (Sync.parse_feats (split_on tab o !!! 5))
        ⊆ dom (Sync.parse_feats (split_on tab ln !!! 5))
          ∪ {[lit "gen"; lit "num"; lit "rat"]}
    ∧ ∀ k, k ∉ [lit "gen"; lit "num"; lit "rat"] →
           Sync.parse_feats (split_on tab o !!! 5) !! k
           = Sync.parse_feats (split_on tab ln !!! 5) !! k.
Proof.
  intros Hlv Hi Hst. exists (line_out lookup ln).
  destruct (sync_effect lookup lines) as (Ho & _).
  split; [by rewrite Ho, list_lookup_fmap, Hi|].
  rewrite line_out_reparse by done.
  apply merged_map_keys.
Qed.

Lemma synced_feats_keys_witness :
  ∃ o, Sync.out (Sync.sync_conllu_with_magold [ex_line_case] ex_lookup) !! 0 = Some o
    ∧ o = ex_line_case_synced
    ∧ Sync.parse_feats (split_on tab o !!! 5) !! lit "case" = Some (lit "nom").
Proof.
  destruct (synced_feats_keys ex_lookup [ex_line_case] 0 ex_line_case
              ex_lookup_clean eq_refl ex_line_case_plain) as (o & Ho & _ & Hk).
  exists o. split; [exact Ho|]. split.
  - vm_compute in Ho. by injection Ho as <-.
  - rewrite Hk; [vm_compute; reflexivity|].
    apply (bool_decide_unpack _). vm_compute. exact I.
Defined.

(** * Further properties of the two scripts *)

(** ** The synchronizer as a whole *)

Lemma sync_step_debug lookup st ln :
  Sync.debug_hits (Sync.sync_step lookup st ln)
  = Sync.debug_hits st ++ line_notes lookup ln.
Proof.
  unfold line_notes, Sync.sync_step.
  destruct (bool_decide (strip ln = []) || startswith (lit "#") ln).
  { simpl. by rewrite app_nil_r. }
  cbv zeta.
  destruct (length (split_on tab ln) <? 10).
  { simpl. by rewrite app_nil_r. }
  set (key := Sync.choose_conllu_key _).
  destruct (truthy key) eqn:Hk; cbn [negb andb].
  2:{ simpl. by rewrite app_nil_r. }
  destruct (lookup !! default [] key) as [v|] eqn:Hv.
  2:{ destruct (bool_decide (default [] key ∈ Sync.debug_targets)); simpl;
        by rewrite ?app_nil_r. }
  destruct (Sync.merge_triple _ v) as [feats' changed] eqn:Hm.
  destruct (bool_decide (default [] key ∈ Sync.debug_targets)), changed;
    simpl; rewrite <- ?app_assoc, ?app_nil_r; reflexivity.
Qed.

Lemma sync_fold_debug lookup lines st :
  Sync.debug_hits (fold_left (Sync.sync_step lookup) lines st)
  = Sync.debug_hits st ++ concat (line_notes lookup <$> lines).
Proof.
  revert st. induction lines as [|ln lines IH]; intros st; simpl.
  - by rewrite app_nil_r.
  - by rewrite IH, sync_step_debug, app_assoc.
Qed.

(** The run over a concatenation is the two runs put together: the loop
    carries nothing from one line to the next but the output list, the two
    counters and the debug notes, which it only extends. *)
Theorem sync_concatenation lookup l1 l2 :
  let r := Sync.sync_conllu_with_magold (l1 ++ l2) lookup in
  let r1 := Sync.sync_conllu_with_magold l1 lookup in
  let r2 := Sync.sync_conllu_with_magold l2 lookup in
  Sync.out r = Sync.out r1 ++ Sync.out r2
  ∧ Sync.matched r = Sync.matched r1 + Sync.matched r2
  ∧ Sync.updated r = Sync.updated r1 + Sync.updated r2
  ∧ Sync.debug_hits r = Sync.debug_hits r1 ++ Sync.debug_hits r2.
Proof.
  intros r r1 r2.
  destruct (sync_effect lookup (l1 ++ l2)) as (Ho & Hm & Hu).
  destruct (sync_effect lookup l1) as (Ho1 & Hm1 & Hu1).
  destruct (sync_effect lookup l2) as (Ho2 & Hm2 & Hu2).
  fold r in Ho, Hm, Hu. fold r1 in Ho1, Hm1, Hu1. fold r2 in Ho2, Hm2, Hu2.
  split_and!.
  - by rewrite Ho, Ho1, Ho2, fmap_app.
  - by rewrite Hm, Hm1, Hm2, filter_app, length_app.
  - by rewrite Hu, Hu1, Hu2, filter_app, length_app.
  - unfold r, r1, r2, Sync.sync_conllu_with_magold.
    rewrite fold_left_app, (sync_fold_debug lookup l2), (sync_fold_debug lookup l2 (Sync.SyncState _ _ _ _)).
    done.
Qed.

(** The output has one line per input line, and the counters are ordered:
    a line is counted as updated only after it was counted as matched. *)
Theorem sync_counters lookup lines :
  let r := Sync.sync_conllu_with_magold lines lookup in
  length (Sync.out r) = length lines
  ∧ Sync.updated r ≤ Sync.matched r
  ∧ Sync.matched r ≤ length lines.
Proof.
  intros r. destruct (sync_effect lookup lines) as (Ho & Hm & Hu).
  fold r in Ho, Hm, Hu. rewrite Ho, Hm, Hu. split_and!.
  - apply length_fmap.
  - clear. induction lines as [|ln lines IH]; [done|].
    rewrite !filter_cons.
    destruct (decide (line_changed lookup ln = true)) as [Hc|Hc];
      destruct (decide (is_Some (resolved lookup ln))) as [Hr|Hr]; simpl; try lia.
    destruct (line_changed_resolved _ _ Hc) as (key & g & n & r & Hres & _).
    destruct Hr. by rewrite Hres.
  - apply length_filter.
Qed.

Lemma resolved_empty ln : resolved ∅ ln = None.
Proof.
  unfold resolved. destruct (_ || _); [done|]. cbv zeta.
  destruct (_ <? _); [done|]. destruct (negb _); [done|].
  by rewrite lookup_empty.
Qed.

(** With an empty lookup the output is the input, and nothing is counted
    as matched or updated. *)
Theorem sync_empty_lookup lines :
  let r := Sync.sync_conllu_with_magold lines ∅ in
  Sync.out r = lines ∧ Sync.matched r = 0 ∧ Sync.updated r = 0.
Proof.
  intros r. destruct (sync_effect ∅ lines) as (Ho & Hm & Hu).
  fold r in Ho, Hm, Hu. rewrite Ho, Hm, Hu. split_and!.
  - rewrite <- (list_fmap_id lines) at 2. apply list_fmap_ext.
    intros i ln _. unfold line_out, line_changed. by rewrite resolved_empty.
  - clear. induction lines as [|ln lines IH]; [done|].
    rewrite filter_cons, decide_False; [done|].
    rewrite resolved_empty. by intros [? ?].
  - clear. induction lines as [|ln lines IH]; [done|].
    rewrite filter_cons, decide_False; [done|].
    unfold line_changed. by rewrite resolved_empty.
Qed.

(** A blank line, a comment line and a line with fewer than ten columns is
    copied to the output and leaves the counters alone, whatever the
    lookup holds and whatever the line looks like otherwise. *)
Theorem sync_skips_line lookup pre ln post :
  strip ln = [] ∨ startswith (lit "#") ln = true ∨ length (split_on tab ln) < 10 →
  let r := Sync.sync_conllu_with_magold (pre ++ ln :: post) lookup in
  let r1 := Sync.sync_conllu_with_magold pre lookup in
  let r2 := Sync.sync_conllu_with_magold post lookup in
  Sync.out r = Sync.out r1 ++ ln :: Sync.out r2
  ∧ Sync.matched r = Sync.matched r1 + Sync.matched r2
  ∧ Sync.updated r = Sync.updated r1 + Sync.updated r2.
Proof.
  intros Hskip r r1 r2.
  assert (Hres : resolved lookup ln = None).
  { unfold resolved. destruct Hskip as [Hb|[Hc|Hl]].
    - by rewrite bool_decide_eq_true_2.
    - by rewrite Hc, orb_true_r.
    - destruct (_ || _); [done|]. cbv zeta.
      by rewrite (proj2 (Nat.ltb_lt _ _) Hl). }
  destruct (sync_effect lookup (pre ++ ln :: post)) as (Ho & Hm & Hu).
  destruct (sync_effect lookup pre) as (Ho1 & Hm1 & Hu1).
  destruct (sync_effect lookup post) as (Ho2 & Hm2 & Hu2).
  fold r in Ho, Hm, Hu. fold r1 in Ho1, Hm1, Hu1. fold r2 in Ho2, Hm2, Hu2.
  split_and!.
  - rewrite Ho, Ho1, Ho2, fmap_app, fmap_cons.
    unfold line_out at 2, line_changed. by rewrite Hres.
  - rewrite Hm, Hm1, Hm2, filter_app, filter_cons, length_app.
    rewrite decide_False; [done|]. rewrite Hres. by intros [? ?].
  - rewrite Hu, Hu1, Hu2, filter_app, filter_cons, length_app.
    rewrite decide_False; [done|]. unfold line_changed. by rewrite Hres.
Qed.

Lemma sync_skips_line_witness :
  let r := Sync.sync_conllu_with_magold ([ex_line_stale] ++ ex_comment_line :: []) ex_lookup in
  let r1 := Sync.sync_conllu_with_magold [ex_line_stale] ex_lookup in
  let r2 := Sync.sync_conllu_with_magold [] ex_lookup in
  Sync.out r = Sync.out r1 ++ ex_comment_line :: Sync.out r2
  ∧ Sync.matched r = Sync.matched r1 + Sync.matched r2
  ∧ Sync.updated r = Sync.updated r1 + Sync.updated r2.
Proof.
  apply (sync_skips_line ex_lookup [ex_line_stale] ex_comment_line []).
  right. left. vm_compute. reflexivity.
Defined.

(** ** What the synchronizer writes *)

(** The feature column of the line the loop body writes for a resolved
    line holds the three values of the lookup. *)
Lemma line_out_feats lookup ln key g n r :
  lookup_values clean lookup →
  resolved lookup ln = Some (key, (g, n, r)) →
  Sync.parse_feats (split_on tab (line_out lookup ln) !!! 5) !! lit "gen" = Some g
  ∧ Sync.parse_feats (split_on tab (line_out lookup ln) !!! 5) !! lit "num" = Some n
  ∧ Sync.parse_feats (split_on tab (line_out lookup ln) !!! 5) !! lit "rat" = Some r.
Proof.
  intros Hlv Hres. destruct (line_changed lookup ln) eqn:Hch.
  - rewrite line_out_feature_column by done.
    destruct (line_changed_resolved _ _ Hch) as (key' & g' & n' & r' & Hres' & Hsf).
    rewrite Hres in Hres'. injection Hres' as <- <- <- <-.
    pose proof (proj1 (resolved_Some _ _ _ _) Hres) as (_ & _ & _ & _ & _ & Hl).
    destruct (Hlv _ _ _ _ Hl) as ([_ Hgs] & [_ Hns] & [_ Hrs]).
    pose proof (synced_feats_wf _ _ _ _ _ _ Hlv Hres) as Hwf.
    pose proof gen_ne_num. pose proof gen_ne_rat. pose proof num_ne_rat.
    split_and!; apply parse_format_lookup;
      try done; try (by apply rstrip_ws_id);
      rewrite Hsf; by simplify_map_eq.
  - unfold line_out. rewrite Hch.
    unfold line_changed in Hch. rewrite Hres, merge_triple_spec in Hch. simpl in Hch.
    apply negb_false_iff, bool_decide_eq_true in Hch. exact Hch.
Qed.

(** A feature of the input line other than gen, num and rat is still in the
    feature column of the written line, if [strip] leaves its name and its
    value alone. *)
Lemma line_out_other_feats lookup ln key g n r k v :
  lookup_values clean lookup →
  resolved lookup ln = Some (key, (g, n, r)) →
  k ∉ [lit "gen"; lit "num"; lit "rat"] →
  Sync.parse_feats (split_on tab ln !!! 5) !! k = Some v →
  lstrip_ws k = k → rstrip_ws v = v →
  Sync.parse_feats (split_on tab (line_out lookup ln) !!! 5) !! k = Some v.
Proof.
  intros Hlv Hres Hk Hkv Hks Hvs. destruct (line_changed lookup ln) eqn:Hch.
  - rewrite line_out_feature_column by done.
    destruct (line_changed_resolved _ _ Hch) as (key' & g' & n' & r' & Hres' & Hsf).
    apply parse_format_lookup; [|by eapply synced_feats_wf|done..].
    rewrite Hsf. rewrite !not_elem_of_cons in Hk. destruct Hk as (? & ? & ? & _).
    by rewrite !lookup_insert_ne.
  - unfold line_out. by rewrite Hch.
Qed.

(** After a run with a lookup whose values hold no "|" and no whitespace,
    the feature column of every line that resolved to a non-empty key of
    the lookup parses to a map with the lookup's gender, number and
    rationality, and keeps every other feature of the input line whose name
    and value [strip] leaves alone. *)
Theorem sync_writes_triple lookup lines i ln key g n r :
  lookup_values clean lookup →
  lines !! i = Some ln →
  strip ln ≠ [] →
  startswith (lit "#") ln = false →
  10 ≤ length (split_on tab ln) →
  Sync.choose_conllu_key (Sync.parse_misc (split_on tab ln !!! 9)) = Some key →
  key ≠ [] →
  lookup !! key = Some (g, n, r) →
  ∃ o, Sync.out (Sync.sync_conllu_with_magold lines lookup) !! i = Some o
    ∧ Sync.parse_feats (split_on tab o !!! 5) !! lit "gen" = Some g
    ∧ Sync.parse_feats (split_on tab o !!! 5) !! lit "num" = Some n
    ∧ Sync.parse_feats (split_on tab o !!! 5) !! lit "rat" = Some r
    ∧ ∀ k v, k ∉ [lit "gen"; lit "num"; lit "rat"] →
             Sync.parse_feats (split_on tab ln !!! 5) !! k = Some v →
             lstrip_ws k = k → rstrip_ws v = v →
             Sync.parse_feats (split_on tab o !!! 5) !! k = Some v.
Proof.
  intros Hlv Hi Hnb Hhash Hlen Hkey Hkne Hl.
  assert (Hres : resolved lookup ln = Some (key, (g, n, r))).
  { apply resolved_Some. by split_and!. }
  destruct (sync_effect lookup lines) as (Ho & _).
  exists (line_out lookup ln). split.
  { by rewrite Ho, list_lookup_fmap, Hi. }
  destruct (line_out_feats _ _ _ _ _ _ Hlv Hres) as (Hg & Hn & Hr).
  split_and!; [done..|].
  intros k v. by apply line_out_other_feats with key g n r.
Qed.

Lemma sync_writes_triple_witness :
  ∃ o, Sync.out (Sync.sync_conllu_with_magold [ex_line_stale] ex_lookup) !! 0 = Some o
    ∧ Sync.parse_feats (split_on tab o !!! 5) !! lit "gen" = Some (lit "f")
    ∧ Sync.parse_feats (split_on tab o !!! 5) !! lit "num" = Some (lit "p")
    ∧ Sync.parse_feats (split_on tab o !!! 5) !! lit "rat" = Some (lit "i")
    ∧ ∀ k v, k ∉ [lit "gen"; lit "num"; lit "rat"] →
             Sync.parse_feats (split_on tab ex_line_stale !!! 5) !! k = Some v →
             lstrip_ws k = k → rstrip_ws v = v →
             Sync.parse_feats (split_on tab o !!! 5) !! k = Some v.
Proof.
  apply (sync_writes_triple ex_lookup [ex_line_stale] 0 ex_line_stale (lit "XYZ"));
    try (vm_compute; reflexivity);
    try exact ex_lookup_clean;
    intros H; vm_compute in H; discriminate.
Defined.

Lemma line_changed_differs lookup ln :
  lookup_values clean lookup →
  line_changed lookup ln = true → line_out lookup ln ≠ ln.
Proof.
  intros Hlv Hch Heq.
  destruct (line_changed_resolved _ _ Hch) as (key & g & n & r & Hres & _).
  destruct (line_out_feats _ _ _ _ _ _ Hlv Hres) as (Hg & Hn & Hr).
  rewrite Heq in Hg, Hn, Hr.
  unfold line_changed in Hch. rewrite Hres, merge_triple_spec in Hch. simpl in Hch.
  by rewrite bool_decide_eq_true_2 in Hch.
Qed.

(** With a lookup whose values hold no "|" and no whitespace, [updated]
    is the number of output lines that differ from their input line. *)
Theorem updated_counts_differences lookup lines :
  lookup_values clean lookup →
  let r := Sync.sync_conllu_with_magold lines lookup in
  Sync.updated r
  = length (filter (λ p : str * str, p.1 ≠ p.2) (zip lines (Sync.out r))).
Proof.
  intros Hlv r. destruct (sync_effect lookup lines) as (Ho & _ & Hu).
  fold r in Ho, Hu. rewrite Hu, Ho. clear Ho Hu r.
  induction lines as [|ln lines IH]; [done|].
  rewrite fmap_cons. simpl zip. rewrite !filter_cons. simpl.
  destruct (decide (line_changed lookup ln = true)) as [Hc|Hc];
    destruct (decide (ln ≠ line_out lookup ln)) as [Hd|Hd]; simpl; try (by rewrite IH).
  - destruct Hd. intros Heq. by apply (line_changed_differs lookup ln).
  - destruct Hc. destruct (line_changed lookup ln) eqn:E; [done|].
    destruct Hd. unfold line_out. by rewrite E.
Qed.

Lemma updated_counts_differences_witness :
  let r := Sync.sync_conllu_with_magold [ex_line_stale; ex_line_synced] ex_lookup in
  Sync.updated r
  = length (filter (λ p : str * str, p.1 ≠ p.2)
              (zip [ex_line_stale; ex_line_synced] (Sync.out r))).
Proof.
  exact (updated_counts_differences ex_lookup [ex_line_stale; ex_line_synced]
           ex_lookup_clean).
Defined.

(** The two stages together: whatever the MAGOLD lines and the tree lines
    are, a run with the lookup built from the former gives back as many
    lines, each the input line or the input line with another sixth
    column and the same columns otherwise. *)
Theorem built_lookup_frame ud magold_lines lines :
  let out := Sync.out (Sync.sync_conllu_with_magold lines
                         (Sync.build_magold_lookup ud magold_lines)) in
  length out = length lines
  ∧ Forall2 (λ ln o,
       o = ln
       ∨ length (split_on tab o) = length (split_on tab ln)
         ∧ <[5 := split_on tab ln !!! 5]> (split_on tab o) = split_on tab ln)
      lines out.
Proof.
  intros out. set (lookup := Sync.build_magold_lookup ud magold_lines) in *.
  destruct (sync_effect lookup lines) as (Ho & _).
  unfold out. rewrite Ho. split; [apply length_fmap|].
  apply Forall2_fmap_r, Forall_Forall2_diag, Forall_forall. intros ln _.
  destruct (line_changed lookup ln) eqn:Hch.
  - right. rewrite line_out_columns by (done || apply build_magold_lookup_no_tab).
    rewrite length_insert, list_insert_insert_eq. split; [done|].
    apply list_insert_id.
    destruct (line_changed_resolved _ _ Hch) as (key & g & n & r & Hres & _).
    pose proof (proj1 (resolved_Some _ _ _ _) Hres) as (_ & _ & Hlen & _).
    apply list_lookup_lookup_total_lt. lia.
  - left. unfold line_out. by rewrite Hch.
Qed.

(** ** The feature codec, entry by entry *)

Lemma add_part_insert m k v :
  has_char equals k = false → Sync.add_part m (k ++ equals :: v) = <[k := v]> m.
Proof. intros Hk. by apply (add_part_kv m (k, v)). Qed.

Lemma add_part_defines m k v :
  has_char equals k = false → Sync.add_part m (k ++ equals :: v) !! k = Some v.
Proof. intros Hk. rewrite add_part_insert by done. apply lookup_insert_eq. Qed.

Lemma add_part_other m p k :
  (∀ v, p ≠ k ++ equals :: v) → Sync.add_part m p !! k = m !! k.
Proof.
  intros Hp. unfold Sync.add_part. destruct (has_char equals p) eqn:He; [|done].
  destruct (split_once_present _ _ He) as (k0 & v0 & -> & Hk0 & ->).
  apply lookup_insert_ne. intros ->. by apply (Hp v0).
Qed.

Lemma fold_add_part_last_wins parts k v :
  fold_left Sync.add_part parts ∅ !! k = Some v ↔
  ∃ l1 l2, parts = l1 ++ (k ++ equals :: v) :: l2
           ∧ has_char equals k = false
           ∧ ∀ p v', p ∈ l2 → p ≠ k ++ equals :: v'.
Proof.
  induction parts as [|p parts IH] using rev_ind.
  - simpl. rewrite lookup_empty. split; [done|].
    intros (l1 & l2 & E & _). by destruct l1.
  - rewrite fold_left_app. simpl. split.
    + intros H.
      destruct (has_char equals p) eqn:He.
      * destruct (split_once_present _ _ He) as (k0 & v0 & Ep & Hk0 & Hsp).
        rewrite Ep, add_part_insert in H by done.
        destruct (decide (k0 = k)) as [->|Hne].
        -- rewrite lookup_insert_eq in H. injection H as <-.
           exists parts, []. rewrite Ep. split_and!; [done..|].
           intros p' v' Hin. by apply elem_of_nil in Hin.
        -- rewrite lookup_insert_ne in H by done.
           apply IH in H as (l1 & l2 & -> & Hk & Hl2).
           exists l1, (l2 ++ [p]). rewrite <- app_assoc. split_and!; [done..|].
           intros p' v' [Hin| ->%list_elem_of_singleton]%elem_of_app; [by apply Hl2|].
           intros E. rewrite E, split_once_app in Hsp by done. congruence.
      * unfold Sync.add_part in H. rewrite He in H.
        apply IH in H as (l1 & l2 & -> & Hk & Hl2).
        exists l1, (l2 ++ [p]). rewrite <- app_assoc. split_and!; [done..|].
        intros p' v' [Hin| ->%list_elem_of_singleton]%elem_of_app; [by apply Hl2|].
        intros E. rewrite E, has_char_app, has_char_cons, N.eqb_refl, orb_true_r in He. done.
    + intros (l1 & l2 & E & Hk & Hl2).
      destruct l2 as [|q l2 _] using rev_ind.
      * apply app_inj_tail in E as [-> ->]. by apply add_part_defines.
      * rewrite app_comm_cons, app_assoc in E. apply app_inj_tail in E as [-> ->].
        rewrite add_part_other.
        -- apply IH. exists l1, l2. split_and!; [done..|].
           intros p' v' Hin. apply Hl2, elem_of_app. by left.
        -- intros v'. apply Hl2, elem_of_app. right. apply list_elem_of_here.
Qed.

(** [parse_feats] reads the "|"-separated parts of the stripped string: a
    key has a value exactly when some part is the key, a "=", and the value,
    the key holds no "=" (a part is cut at its first "="), and no later part
    starts with the same key and "=" (the last one wins).  Parts without "="
    and the empty string and "_" give no entry. *)
Theorem parse_feats_last_wins s k v :
  Sync.parse_feats s !! k = Some v ↔
  ∃ l1 l2, split_on pipe (strip s) = l1 ++ (k ++ equals :: v) :: l2
           ∧ has_char equals k = false
           ∧ ∀ p v', p ∈ l2 → p ≠ k ++ equals :: v'.
Proof.
  unfold Sync.parse_feats. cbv zeta.
  destruct (bool_decide (strip s = []) || bool_decide (strip s = lit "_")) eqn:Hg.
  - rewrite lookup_empty. split; [done|]. intros (l1 & l2 & E & _).
    assert (He : has_char equals (strip s) = false).
    { apply orb_true_iff in Hg as [Hg|Hg]; apply bool_decide_eq_true in Hg;
        by rewrite Hg. }
    pose proof (split_on_has_char equals pipe _ He) as Hall.
    rewrite E in Hall. apply Forall_app in Hall as [_ Hall].
    inversion Hall as [|? ? Hp _]; subst.
    by rewrite has_char_app, has_char_cons, N.eqb_refl, orb_true_r in Hp.
  - apply fold_add_part_last_wins.
Qed.

#[global] Instance str_le_total : Total str_le.
Proof.
  intros a. unfold str_le. induction a as [|x a IH]; intros [|y b]; simpl; auto.
  destruct (N.ltb_spec x y), (N.ltb_spec y x); auto; try lia.
  assert (x = y) as -> by lia. rewrite N.eqb_refl. apply IH.
Qed.

(** [format_feats] writes every entry of the map once, as key, "=" and
    value, the keys in ascending order, joined by "|"; the empty map is
    written "_". *)
Theorem format_feats_sorted d :
  ∃ kvs, kvs ≡ₚ map_to_list d
         ∧ Sorted str_le kvs.*1
         ∧ NoDup kvs.*1
         ∧ Sync.format_feats d = match kvs with [] => lit "_" | _ => encode kvs end.
Proof.
  exists (entries d). split_and!.
  - apply entries_perm.
  - unfold entries. rewrite <- list_fmap_compose.
    erewrite list_fmap_ext; [|intros i x _; reflexivity].
    change (Sorted str_le (id <$> sorted (map_to_list d).*1)).
    rewrite list_fmap_id. apply Sorted_merge_sort, _.
  - apply NoDup_entries.
  - destruct (decide (d = ∅)) as [->|Hne].
    + done.
    + rewrite format_feats_encode by done.
      pose proof (entries_not_nil d Hne). by destruct (entries d).
Qed.

(** ** Reading a tag off an analysis line *)

Lemma startswith_prefix p s : startswith p s = true → s = p ++ drop (length p) s.
Proof.
  revert s. induction p as [|a p IH]; intros [|b s]; simpl; try done.
  rewrite andb_true_iff, N.eqb_eq. intros [-> Hp]. f_equal. by apply IH.
Qed.

Lemma nonspace_run_split s :
  ∃ post, s = Sync.nonspace_run s ++ post
          ∧ (post = [] ∨ ∃ c post', post = c :: post' ∧ isspace c = true).
Proof.
  induction s as [|c s (post & Hs & Hpost)]; simpl.
  - exists []. by split; [|left].
  - destruct (isspace c) eqn:Hc.
    + exists (c :: s). split; [done|]. right. by exists c, s.
    + exists post. split; [|done]. simpl. by rewrite <- Hs.
Qed.

Lemma match_here_sound ud key prev s g :
  Sync.match_here ud key prev s = Some g →
  ∃ post,
    s = key ++ lit ":" ++ g ++ post
    ∧ g ≠ []
    ∧ (∀ c, c ∈ g → isspace c = false)
    ∧ (post = [] ∨ ∃ c post', post = c :: post' ∧ isspace c = true)
    ∧ xorb (from_option (is_word ud) false prev)
           (from_option (is_word ud) false (head (key ++ lit ":"))) = true.
Proof.
  unfold Sync.match_here.
  destruct (xorb _ _ && startswith (key ++ lit ":") s) eqn:Hb; [|done].
  apply andb_true_iff in Hb as [Hx Hs].
  pose proof (startswith_prefix _ _ Hs) as Hpre.
  rewrite length_app in Hpre. change (length (lit ":")) with 1 in Hpre.
  destruct (nonspace_run_split (drop (length key + 1) s)) as (post & Hrun & Hpost).
  destruct (Sync.nonspace_run (drop (length key + 1) s)) as [|c g'] eqn:E; [done|].
  intros [= <-]. exists post. split_and!.
  - rewrite Hpre at 1. rewrite <- app_assoc. by rewrite Hrun at 1.
  - done.
  - intros c' Hc'. apply (nonspace_run_chars (drop (length key + 1) s)). by rewrite E.
  - done.
  - clear -Hx Hs. change (lit ":") with [58%N] in *.
    destruct key as [|a key], s as [|b s]; cbn [startswith app] in Hs; try done;
      apply andb_true_iff in Hs as [->%N.eqb_eq _]; exact Hx.
Qed.

Lemma search_from_sound ud key prev s g :
  Sync.search_from ud key prev s = Some g →
  ∃ pre post,
    s = pre ++ key ++ lit ":" ++ g ++ post
    ∧ g ≠ []
    ∧ (∀ c, c ∈ g → isspace c = false)
    ∧ (post = [] ∨ ∃ c post', post = c :: post' ∧ isspace c = true)
    ∧ xorb (from_option (is_word ud) false (from_option Some prev (last pre)))
           (from_option (is_word ud) false (head (key ++ lit ":"))) = true.
Proof.
  revert prev. induction s as [|c s IH]; intros prev.
  - simpl. destruct (Sync.match_here ud key prev []) as [g'|] eqn:Hm; [|done].
    intros [= <-]. destruct (match_here_sound _ _ _ _ _ Hm) as (post & ? & ? & ? & ? & ?).
    by exists [], post.
  - simpl. destruct (Sync.match_here ud key prev (c :: s)) as [g'|] eqn:Hm.
    + intros [= <-]. destruct (match_here_sound _ _ _ _ _ Hm) as (post & ? & ? & ? & ? & ?).
      by exists [], post.
    + intros H. destruct (IH _ H) as (pre & post & -> & ? & ? & ? & Hx).
      exists (c :: pre), post. split_and!; [done..|].
      destruct pre as [|c' pre]; [exact Hx|].
      rewrite last_cons_cons.
      destruct (last (c' :: pre)) eqn:El; [exact Hx|by apply last_None in El].
Qed.

(** A value [extract_field] returns stands in the line right after the tag
    name and a colon; it is not empty, holds no whitespace and runs up to
    the next whitespace or the end of the line; and the tag name starts at
    a word boundary: where the name starts with a word character, what is
    before it is the start of the line or a character that is not one, so a
    tag is never read out of the tail of a longer name. *)
Theorem extract_field_sound ud line key g :
  Sync.extract_field ud line key = Some g →
  ∃ pre post,
    line = pre ++ key ++ lit ":" ++ g ++ post
    ∧ g ≠ []
    ∧ (∀ c, c ∈ g → isspace c = false)
    ∧ (post = [] ∨ ∃ c post', post = c :: post' ∧ isspace c = true)
    ∧ xorb (from_option (is_word ud) false (last pre))
           (from_option (is_word ud) false (head (key ++ lit ":"))) = true.
Proof.
  intros H. destruct (search_from_sound _ _ _ _ _ H) as (pre & post & ? & ? & ? & ? & Hx).
  exists pre, post. split_and!; [done..|]. by destruct (last pre).
Qed.

Lemma extract_field_sound_witness :
  ∃ pre post,
    lit "*1.0 form_gen:m gen:f num:p" = pre ++ lit "gen" ++ lit ":" ++ lit "f" ++ post
    ∧ lit "f" ≠ []
    ∧ (∀ c, c ∈ lit "f" → isspace c = false)
    ∧ (post = [] ∨ ∃ c post', post = c :: post' ∧ isspace c = true)
    ∧ xorb (from_option (is_word ascii_data) false (last pre))
           (from_option (is_word ascii_data) false (head (lit "gen" ++ lit ":"))) = true.
Proof.
  apply (extract_field_sound ascii_data (lit "*1.0 form_gen:m gen:f num:p")).
  vm_compute. reflexivity.
Defined.

(** ** The lookup the builder makes *)

Lemma lstrip_char_elem ch s c : c ∈ lstrip_char ch s → c ∈ s.
Proof.
  induction s as [|x s IH]; simpl; [done|].
  destruct (N.eqb x ch); [|done]. intros H. apply list_elem_of_further. auto.
Qed.

Lemma split_once_hd_elem sep s c : c ∈ hd [] (split_once sep s) → c ∈ s.
Proof.
  destruct (has_char sep s) eqn:Hs.
  - destruct (split_once_present _ _ Hs) as (k & v & -> & _ & ->). simpl.
    intros H. apply elem_of_app. by left.
  - by rewrite split_once_absent.
Qed.

Lemma extract_field_usable ud line key g :
  Sync.extract_field ud line key = Some g →
  g ≠ [] ∧ ∀ c, c ∈ g → isspace c = false.
Proof.
  intros H. by destruct (search_from_sound _ _ _ _ _ H) as (_ & _ & _ & ? & ? & _).
Qed.

Lemma lookup_step_entries ud lookup line :
  map_Forall built_entry lookup → map_Forall built_entry (Sync.lookup_step ud lookup line).
Proof.
  intros Hm. unfold Sync.lookup_step. cbv zeta.
  destruct (bool_decide (strip line = []) || negb (startswith (lit "*") (strip line)));
    [done|].
  destruct (Sync.extract_field ud (strip line) (lit "gen")) as [g|] eqn:Hg; [|done].
  destruct (Sync.extract_field ud (strip line) (lit "num")) as [n|] eqn:Hn;
    [|by rewrite orb_true_r].
  destruct (Sync.extract_field ud (strip line) (lit "rat")) as [r|] eqn:Hr;
    [|by rewrite orb_true_r].
  unfold Sync.unusable.
  case_bool_decide as Hgna; [done|]. case_bool_decide as Hnna; [done|].
  case_bool_decide as Hrna; [done|]. cbn [orb].
  destruct (extract_field_usable _ _ _ _ Hg) as [? ?].
  destruct (extract_field_usable _ _ _ _ Hn) as [? ?].
  destruct (extract_field_usable _ _ _ _ Hr) as [? ?].
  assert (Hins : ∀ (m : gmap str (str * str * str)) k,
            k ≠ [] → (∀ c, c ∈ k → isspace c = false) →
            map_Forall built_entry m → map_Forall built_entry (<[k := (g, n, r)]> m)).
  { intros m k Hk Hks Hmm. apply map_Forall_insert_2; [|done].
    by repeat split. }
  set (L := if truthy (Sync.extract_field ud (strip line) (lit "diac")) then _ else lookup).
  assert (HL : map_Forall built_entry L).
  { unfold L. destruct (Sync.extract_field ud (strip line) (lit "diac")) as [d|] eqn:Hd;
      [|done].
    destruct (truthy (Some d)) eqn:Ht; [|done].
    destruct (extract_field_usable _ _ _ _ Hd) as [? ?]. by apply Hins. }
  clearbody L.
  destruct (Sync.extract_field ud (strip line) (lit "bw")) as [b|] eqn:Hb; [|done].
  destruct (truthy (Some b)); [|done].
  destruct (truthy (Some _)) eqn:Ht; [|done].
  apply Hins; [by destruct (lstrip_char _ _)| |done].
  intros c Hc. destruct (extract_field_usable _ _ _ _ Hb) as [_ Hbs].
  by apply Hbs, split_once_hd_elem with slash, lstrip_char_elem with plus.
Qed.

Lemma fold_lookup_step_entries ud lines m :
  map_Forall built_entry m →
  map_Forall built_entry (fold_left (Sync.lookup_step ud) lines m).
Proof.
  revert m. induction lines as [|line lines IH]; intros m Hm; simpl; [done|].
  by apply IH, lookup_step_entries.
Qed.

(** Every entry of a lookup the builder makes has a key that is not empty
    and holds no whitespace, and three values that are not empty, are not
    "na" and hold no whitespace. *)
Theorem built_lookup_entries ud lines key g n r :
  Sync.build_magold_lookup ud lines !! key = Some (g, n, r) →
  key ≠ [] ∧ (∀ c, c ∈ key → isspace c = false)
  ∧ usable_value g ∧ usable_value n ∧ usable_value r.
Proof.
  intros H.
  apply (fold_lookup_step_entries ud lines ∅ (map_Forall_empty _) key (g, n, r) H).
Qed.

Lemma built_lookup_entries_witness :
  lit "XYZ" ≠ [] ∧ (∀ c, c ∈ lit "XYZ" → isspace c = false)
  ∧ usable_value (lit "f") ∧ usable_value (lit "p") ∧ usable_value (lit "i").
Proof.
  apply (built_lookup_entries ascii_data [ex_magold_line]).
  vm_compute. reflexivity.
Defined.

Lemma lookup_step_skips ud lookup line :
  strip line = [] ∨ startswith (lit "*") (strip line) = false
  ∨ Sync.unusable (Sync.extract_field ud (strip line) (lit "gen")) = true
  ∨ Sync.unusable (Sync.extract_field ud (strip line) (lit "num")) = true
  ∨ Sync.unusable (Sync.extract_field ud (strip line) (lit "rat")) = true →
  Sync.lookup_step ud lookup line = lookup.
Proof.
  intros H. unfold Sync.lookup_step. cbv zeta.
  destruct H as [H|[H|H]].
  - by rewrite bool_decide_eq_true_2.
  - by rewrite H, orb_true_r.
  - destruct (_ || _); [done|].
    by destruct H as [-> | [-> | ->]]; rewrite ?orb_true_r.
Qed.

(** A line that is blank, does not start with "*" once stripped, or lacks
    a gender, number or rationality other than "na" has no effect on the
    lookup, wherever it stands in the file. *)
Theorem build_ignores_line ud l1 line l2 :
  strip line = [] ∨ startswith (lit "*") (strip line) = false
  ∨ Sync.unusable (Sync.extract_field ud (strip line) (lit "gen")) = true
  ∨ Sync.unusable (Sync.extract_field ud (strip line) (lit "num")) = true
  ∨ Sync.unusable (Sync.extract_field ud (strip line) (lit "rat")) = true →
  Sync.build_magold_lookup ud (l1 ++ line :: l2) = Sync.build_magold_lookup ud (l1 ++ l2).
Proof.
  intros H. unfold Sync.build_magold_lookup. rewrite !fold_left_app. simpl.
  by rewrite lookup_step_skips.
Qed.

Lemma build_ignores_line_witness :
  Sync.build_magold_lookup ascii_data ([ex_magold_line] ++ ex_magold_form_line :: [])
  = Sync.build_magold_lookup ascii_data ([ex_magold_line] ++ []).
Proof.
  apply (build_ignores_line ascii_data [ex_magold_line] ex_magold_form_line []).
  right. right. left. vm_compute. reflexivity.
Defined.

Lemma lookup_step_registers ud lookup line g n r k :
  strip line ≠ [] →
  startswith (lit "*") (strip line) = true →
  Sync.extract_field ud (strip line) (lit "gen") = Some g →
  Sync.extract_field ud (strip line) (lit "num") = Some n →
  Sync.extract_field ud (strip line) (lit "rat") = Some r →
  g ≠ lit "na" → n ≠ lit "na" → r ≠ lit "na" →
  k ≠ [] →
  Sync.extract_field ud (strip line) (lit "diac") = Some k
  ∨ (∃ bw, Sync.extract_field ud (strip line) (lit "bw") = Some bw
           ∧ k = lstrip_char plus (hd [] (split_once slash bw))) →
  Sync.lookup_step ud lookup line !! k = Some (g, n, r).
Proof.
  intros Hnb Hstar Hg Hn Hr Hgna Hnna Hrna Hk Hkey.
  unfold Sync.lookup_step. cbv zeta.
  rewrite bool_decide_eq_false_2 by done. rewrite Hstar. cbn [negb orb].
  rewrite Hg, Hn, Hr. unfold Sync.unusable.
  rewrite !bool_decide_eq_false_2 by done. cbn [orb].
  set (L := if truthy (Sync.extract_field ud (strip line) (lit "diac")) then _ else lookup).
  destruct Hkey as [Hd|(bw & Hb & ->)].
  - assert (HL : L !! k = Some (g, n, r)).
    { unfold L. rewrite Hd. destruct k; [done|]. simpl. apply lookup_insert_eq. }
    clearbody L.
    destruct (truthy (Sync.extract_field ud (strip line) (lit "bw"))); [|done].
    destruct (Sync.extract_field ud (strip line) (lit "bw")) as [b|]; [|done].
    destruct (truthy (Some _)); [|done].
    destruct (decide (lstrip_char plus (hd [] (split_once slash b)) = k)) as [->|Hne].
    + apply lookup_insert_eq.
    + by rewrite lookup_insert_ne.
  - clearbody L. rewrite Hb.
    assert (truthy (Some bw) = true) as -> by (by destruct bw).
    assert (truthy (Some (lstrip_char plus (hd [] (split_once slash bw)))) = true) as ->
      by (by destruct (lstrip_char _ _)).
    apply lookup_insert_eq.
Qed.

(** The last analysis line decides: when the last line of the file is a
    usable analysis line, its triple stands in the lookup under its diac
    value and under its transliterated-form key, whatever the lines before
    it registered there. *)
Theorem build_last_line_wins ud lines line g n r k :
  strip line ≠ [] →
  startswith (lit "*") (strip line) = true →
  Sync.extract_field ud (strip line) (lit "gen") = Some g →
  Sync.extract_field ud (strip line) (lit "num") = Some n →
  Sync.extract_field ud (strip line) (lit "rat") = Some r →
  g ≠ lit "na" → n ≠ lit "na" → r ≠ lit "na" →
  k ≠ [] →
  Sync.extract_field ud (strip line) (lit "diac") = Some k
  ∨ (∃ bw, Sync.extract_field ud (strip line) (lit "bw") = Some bw
           ∧ k = lstrip_char plus (hd [] (split_once slash bw))) →
  Sync.build_magold_lookup ud (lines ++ [line]) !! k = Some (g, n, r).
Proof.
  intros. unfold Sync.build_magold_lookup. rewrite fold_left_app. simpl.
  by apply lookup_step_registers.
Qed.

Lemma build_last_line_wins_witness :
  Sync.build_magold_lookup ascii_data ([ex_magold_pipe_line] ++ [ex_magold_line]) !! lit "XYZ"
  = Some (lit "f", lit "p", lit "i").
Proof.
  apply (build_last_line_wins ascii_data [ex_magold_pipe_line] ex_magold_line);
    try (vm_compute; reflexivity);
    try (intros H; vm_compute in H; discriminate).
  left. vm_compute. reflexivity.
Defined.

Lemma lookup_step_keeps ud lookup line k :
  is_Some (lookup !! k) → is_Some (Sync.lookup_step ud lookup line !! k).
Proof.
  intros Hk. unfold Sync.lookup_step. cbv zeta.
  destruct (_ || _); [done|]. destruct (_ || _); [done|].
  destruct (Sync.extract_field ud (strip line) (lit "gen")) as [g|]; [|done].
  destruct (Sync.extract_field ud (strip line) (lit "num")) as [n|]; [|done].
  destruct (Sync.extract_field ud (strip line) (lit "rat")) as [r|]; [|done].
  assert (Hins : ∀ (m : gmap str (str * str * str)) k',
            is_Some (m !! k) → is_Some (<[k' := (g, n, r)]> m !! k)).
  { intros m k' Hm. rewrite lookup_insert. by case_decide. }
  set (L := if truthy (Sync.extract_field ud (strip line) (lit "diac")) then _ else lookup).
  assert (HL : is_Some (L !! k)).
  { unfold L. destruct (truthy _); [|done].
    destruct (Sync.extract_field ud (strip line) (lit "diac")); [|done]. by apply Hins. }
  clearbody L.
  destruct (truthy (if truthy _ then _ else _)); [|done].
  destruct (if truthy _ then _ else _); [|done]. by apply Hins.
Qed.

(** The builder only adds and overwrites: a key registered by the lines
    read so far is still a key after any further lines. *)
Theorem build_keeps_keys ud l1 l2 k :
  is_Some (Sync.build_magold_lookup ud l1 !! k) →
  is_Some (Sync.build_magold_lookup ud (l1 ++ l2) !! k).
Proof.
  unfold Sync.build_magold_lookup. rewrite fold_left_app.
  generalize (fold_left (Sync.lookup_step ud) l1 ∅). intros m.
  revert m. induction l2 as [|line l2 IH]; intros m Hm; simpl; [done|].
  by apply IH, lookup_step_keeps.
Qed.

Lemma build_keeps_keys_witness :
  is_Some (Sync.build_magold_lookup ascii_data ([ex_magold_line] ++ [ex_magold_plus_line])
           !! lit "XYZ").
Proof.
  apply (build_keeps_keys ascii_data [ex_magold_line] [ex_magold_plus_line]).
  vm_compute. eauto.
Defined.

(** ** Sentences *)

Lemma fold_sentence_step lines ss cur ss' cur' :
  fold_left Pairs.sentence_step lines (ss, cur) = (ss', cur') →
  concat ss' ++ cur' = concat ss ++ cur ++ filter (λ l, strip l ≠ []) lines
  ∧ (Forall (λ s, s ≠ []) ss → Forall (λ s, s ≠ []) ss').
Proof.
  revert ss cur. induction lines as [|ln lines IH]; intros ss cur; simpl.
  - intros [= <- <-]. by rewrite app_nil_r.
  - rewrite filter_cons.
    case_bool_decide as Hb.
    + rewrite decide_False by (by intros ?).
      destruct cur as [|c cur].
      * intros H. by apply IH in H.
      * intros H. apply IH in H as [H1 H2]. split.
        -- rewrite H1, concat_app. simpl. by rewrite app_nil_r, <- app_assoc.
        -- intros Hss. apply H2, Forall_app. split; [done|]. by repeat constructor.
    + rewrite decide_True by done. intros H. apply IH in H as [H1 H2]. split; [|done].
      rewrite H1, <- !app_assoc. done.
Qed.

(** The sentences are the non-blank lines of the file, in order, cut at
    the blank lines: no sentence is empty, and no line is lost or added. *)
Theorem read_conllu_sentences_partition lines :
  concat (Pairs.read_conllu_sentences lines) = filter (λ l, strip l ≠ []) lines
  ∧ Forall (λ s, s ≠ []) (Pairs.read_conllu_sentences lines).
Proof.
  unfold Pairs.read_conllu_sentences.
  destruct (fold_left Pairs.sentence_step lines ([], [])) as [ss cur] eqn:Hf.
  apply fold_sentence_step in Hf as [H1 H2]. simpl in H1.
  destruct cur as [|c cur].
  - rewrite app_nil_r in H1. split; [done|]. by apply H2.
  - split.
    + rewrite concat_app. simpl. by rewrite app_nil_r.
    + apply Forall_app. split; [by apply H2|]. by repeat constructor.
Qed.

(** ** The tokens of a sentence *)

Lemma dict_set_keys {V} (k : Z) (v : V) d :
  (dict_set k v d).*1 = if bool_decide (k ∈ d.*1) then d.*1 else d.*1 ++ [k].
Proof.
  induction d as [|[k' v'] d IH]; [done|].
  cbn [dict_set]. destruct (Z.eqb_spec k k') as [->|Hne]; rewrite !fmap_cons; cbn [fst].
  - rewrite bool_decide_eq_true_2; [done|]. apply list_elem_of_here.
  - rewrite IH. case_bool_decide as Hin.
    + rewrite bool_decide_eq_true_2; [done|]. by apply list_elem_of_further.
    + rewrite bool_decide_eq_false_2; [done|].
      intros [?|?]%elem_of_cons; done.
Qed.

Lemma dict_set_NoDup {V} (k : Z) (v : V) d : NoDup d.*1 → NoDup (dict_set k v d).*1.
Proof.
  intros Hnd. rewrite dict_set_keys. case_bool_decide as Hin; [done|].
  apply NoDup_app. split_and!; [done| |apply NoDup_singleton].
  intros x Hx ->%list_elem_of_singleton. done.
Qed.

Lemma dict_get_elem {V} (k : Z) (v : V) d :
  NoDup d.*1 → (k, v) ∈ d ↔ dict_get k d = Some v.
Proof.
  induction d as [|[k' v'] d IH]; simpl.
  - intros _. split; [by intros ?%elem_of_nil|done].
  - intros [Hk' Hnd]%NoDup_cons. rewrite elem_of_cons, (IH Hnd).
    destruct (Z.eqb_spec k k') as [->|Hne].
    + split.
      * intros [[= ->]|Hget]; [done|].
        destruct Hk'. apply (IH Hnd) in Hget.
        apply list_elem_of_fmap. by exists (k', v).
      * intros [= ->]. by left.
    + split; [intros [[= -> ->]|?]; done|by right].
Qed.

Lemma dict_set_elem {V} (k : Z) (v : V) d k' v' :
  NoDup d.*1 → (k', v') ∈ dict_set k v d → (k' = k ∧ v' = v) ∨ (k', v') ∈ d.
Proof.
  intros Hnd Hin. apply (dict_get_elem _ _ _ (dict_set_NoDup k v d Hnd)) in Hin.
  rewrite dict_get_set in Hin. destruct (Z.eqb_spec k' k) as [->|Hne].
  - left. by injection Hin as ->.
  - right. by apply dict_get_elem.
Qed.

Lemma fold_token_step_ok ud sent tokens0 tokens :
  tokens_ok tokens0 →
  fold_left (Pairs.token_step ud) sent (Ok tokens0) = Ok tokens →
  tokens_ok tokens.
Proof.
  revert tokens0. induction sent as [|ln sent IH]; intros tokens0 Hok; simpl.
  - by intros [= <-].
  - destruct (Pairs.parse_token_line ud ln) as [|[t0|]] eqn:Hp; simpl.
    + by rewrite fold_token_step_raised.
    + apply IH. destruct Hok as [Hnd Hall]. split; [by apply dict_set_NoDup|].
      intros k t Hin. apply dict_set_elem in Hin as [[-> ->]|Hin]; [done|by apply Hall|done].
    + by apply IH.
Qed.

Lemma sentence_tokens_ok ud sent tokens :
  Pairs.sentence_tokens ud sent = Ok tokens → tokens_ok tokens.
Proof.
  apply fold_token_step_ok. split; [constructor|]. by intros k t ?%elem_of_nil.
Qed.

(** In the [tokens] dict of a sentence no id occurs twice, [get] finds
    exactly the stored pairs, and every token is stored under its own id,
    with its feature and MISC maps parsed from its own raw columns. *)
Theorem sentence_tokens_invariant ud sent tokens :
  Pairs.sentence_tokens ud sent = Ok tokens →
  NoDup tokens.*1
  ∧ ∀ k t, ((k, t) ∈ tokens ↔ dict_get k tokens = Some t)
           ∧ ((k, t) ∈ tokens →
              Pairs.t_id t = k
              ∧ Pairs.t_feats t = Pairs.parse_feats (Pairs.t_feats_raw t)
              ∧ Pairs.t_misc t = Pairs.parse_misc (Pairs.t_misc_raw t)).
Proof.
  intros H. destruct (sentence_tokens_ok _ _ _ H) as [Hnd Hall].
  split; [done|]. intros k t. split; [by apply dict_get_elem|apply Hall].
Qed.

Lemma sentence_tokens_invariant_witness :
  NoDup [(1%Z, Pairs.with_maps
             {| Pairs.t_id := 1; Pairs.t_form := lit "A"; Pairs.t_lemma := lit "_";
                Pairs.t_upos := lit "_"; Pairs.t_xpos := lit "_";
                Pairs.t_feats_raw := lit "_"; Pairs.t_head := 0;
                Pairs.t_deprel := lit "MOD"; Pairs.t_deps := lit "_";
                Pairs.t_misc_raw := lit "bw=ADJ"; Pairs.t_feats := ∅;
                Pairs.t_misc := ∅ |})].*1.
Proof.
  refine (proj1 (sentence_tokens_invariant ascii_data [ex_headless_line] _ _)).
  vm_compute. reflexivity.
Defined.

Lemma fold_token_step_keep ud sent tokens0 tokens k :
  fold_left (Pairs.token_step ud) sent (Ok tokens0) = Ok tokens →
  (∀ ln t, ln ∈ sent → Pairs.parse_token_line ud ln = Ok (Some t) → Pairs.t_id t ≠ k) →
  dict_get k tokens = dict_get k tokens0.
Proof.
  revert tokens0. induction sent as [|ln sent IH]; intros tokens0; simpl.
  - by intros [= <-].
  - destruct (Pairs.parse_token_line ud ln) as [|[t0|]] eqn:Hp; simpl.
    + by rewrite fold_token_step_raised.
    + intros Hf Hno. rewrite (IH _ Hf).
      * rewrite dict_get_set. destruct (Z.eqb_spec k (Pairs.t_id t0)) as [->|?]; [|done].
        destruct (Hno ln t0); [apply list_elem_of_here|done..].
      * intros ln' t' Hin. apply Hno. by apply list_elem_of_further.
    + intros Hf Hno. apply (IH _ Hf).
      intros ln' t' Hin. apply Hno. by apply list_elem_of_further.
Qed.

(** When two token lines of a sentence carry the same id, the later one is
    the token of that id: the token found under an id is the one parsed
    from the last line of the sentence with this id. *)
Theorem sentence_tokens_last_line_wins ud l1 ln l2 tokens t :
  Pairs.sentence_tokens ud (l1 ++ ln :: l2) = Ok tokens →
  Pairs.parse_token_line ud ln = Ok (Some t) →
  (∀ ln' t', ln' ∈ l2 → Pairs.parse_token_line ud ln' = Ok (Some t') →
             Pairs.t_id t' ≠ Pairs.t_id t) →
  dict_get (Pairs.t_id t) tokens = Some (Pairs.with_maps t).
Proof.
  unfold Pairs.sentence_tokens. rewrite fold_left_app. cbn [fold_left].
  intros Hf Hp Hno.
  destruct (fold_left (Pairs.token_step ud) l1 (Ok [])) as [|tokens1].
  { by rewrite fold_token_step_raised in Hf. }
  assert (Hs : Pairs.token_step ud (Ok tokens1) ln
               = Ok (dict_set (Pairs.t_id t) (Pairs.with_maps t) tokens1)).
  { unfold Pairs.token_step. simpl. by rewrite Hp. }
  rewrite Hs in Hf.
  rewrite (fold_token_step_keep _ _ _ _ _ Hf Hno), dict_get_set.
  by rewrite Z.eqb_refl.
Qed.

Lemma sentence_tokens_last_line_wins_witness :
  dict_get 1%Z
    [(1%Z, Pairs.with_maps
             {| Pairs.t_id := 1; Pairs.t_form := lit "A"; Pairs.t_lemma := lit "_";
                Pairs.t_upos := lit "_"; Pairs.t_xpos := lit "_";
                Pairs.t_feats_raw := lit "_"; Pairs.t_head := 0;
                Pairs.t_deprel := lit "MOD"; Pairs.t_deps := lit "_";
                Pairs.t_misc_raw := lit "bw=ADJ"; Pairs.t_feats := ∅;
                Pairs.t_misc := ∅ |})]
  = Some (Pairs.with_maps
            {| Pairs.t_id := 1; Pairs.t_form := lit "A"; Pairs.t_lemma := lit "_";
               Pairs.t_upos := lit "_"; Pairs.t_xpos := lit "_";
               Pairs.t_feats_raw := lit "_"; Pairs.t_head := 0;
               Pairs.t_deprel := lit "MOD"; Pairs.t_deps := lit "_";
               Pairs.t_misc_raw := lit "bw=ADJ"; Pairs.t_feats := ∅;
               Pairs.t_misc := ∅ |}).
Proof.
  refine (sentence_tokens_last_line_wins ascii_data [ex_adj_line] ex_headless_line []
            _ {| Pairs.t_id := 1; Pairs.t_form := lit "A"; Pairs.t_lemma := lit "_";
                 Pairs.t_upos := lit "_"; Pairs.t_xpos := lit "_";
                 Pairs.t_feats_raw := lit "_"; Pairs.t_head := 0;
                 Pairs.t_deprel := lit "MOD"; Pairs.t_deps := lit "_";
                 Pairs.t_misc_raw := lit "bw=ADJ"; Pairs.t_feats := ∅;
                 Pairs.t_misc := ∅ |} _ _ _).
  - vm_compute. reflexivity.
  - vm_compute. reflexivity.
  - intros ln' t' Hin. by apply elem_of_nil in Hin.
Defined.

(** ** The run of the pair extractor *)

Lemma fold_token_step_Raised ud sent tokens0 :
  fold_left (Pairs.token_step ud) sent (Ok tokens0) = Raised ↔
  ∃ ln, ln ∈ sent ∧ Pairs.parse_token_line ud ln = Raised.
Proof.
  revert tokens0. induction sent as [|ln sent IH]; intros tokens0; simpl.
  - split; [done|]. by intros (ln & ?%elem_of_nil & _).
  - destruct (Pairs.parse_token_line ud ln) as [|[t0|]] eqn:Hp; simpl.
    + rewrite fold_token_step_raised. split; [|done]. intros _.
      exists ln. split; [apply list_elem_of_here|done].
    + rewrite IH. split.
      * intros (ln' & Hin & Hr). exists ln'. split; [by apply list_elem_of_further|done].
      * intros (ln' & [->|Hin]%elem_of_cons & Hr); [congruence|]. by exists ln'.
    + rewrite IH. split.
      * intros (ln' & Hin & Hr). exists ln'. split; [by apply list_elem_of_further|done].
      * intros (ln' & [->|Hin]%elem_of_cons & Hr); [congruence|]. by exists ln'.
Qed.

Lemma fold_rows_step_Raised ud sents st :
  fold_left (Pairs.rows_step ud) sents (Ok st) = Raised ↔
  ∃ sent, sent ∈ sents ∧ Pairs.sentence_tokens ud sent = Raised.
Proof.
  revert st. induction sents as [|sent sents IH]; intros [i0 rows0]; simpl.
  - split; [done|]. by intros (s & ?%elem_of_nil & _).
  - destruct (Pairs.sentence_tokens ud sent) as [|tokens] eqn:Ht; simpl.
    + rewrite fold_rows_step_raised. split; [|done]. intros _.
      exists sent. split; [apply list_elem_of_here|done].
    + rewrite IH. split.
      * intros (s & Hin & Hr). exists s. split; [by apply list_elem_of_further|done].
      * intros (s & [->|Hin]%elem_of_cons & Hr); [congruence|]. by exists s.
Qed.

Lemma elem_of_concat {A} (x : A) (ls : list (list A)) :
  x ∈ concat ls ↔ ∃ l, x ∈ l ∧ l ∈ ls.
Proof.
  induction ls as [|l ls IH]; simpl.
  - split; [by intros ?%elem_of_nil|]. by intros (l & _ & ?%elem_of_nil).
  - rewrite elem_of_app, IH. split.
    + intros [Hx|(l' & Hx & Hl)].
      * exists l. split; [done|apply list_elem_of_here].
      * exists l'. split; [done|by apply list_elem_of_further].
    + intros (l' & Hx & [->|Hl]%elem_of_cons); [by left|]. right. by exists l'.
Qed.

Lemma sentences_concat lines :
  concat (Pairs.read_conllu_sentences lines) = filter (λ l, strip l ≠ []) lines.
Proof.
  unfold Pairs.read_conllu_sentences.
  destruct (fold_left Pairs.sentence_step lines ([], [])) as [ss cur] eqn:Hf.
  apply fold_sentence_step in Hf as [H1 _]. simpl in H1.
  destruct cur as [|c cur].
  - by rewrite app_nil_r in H1.
  - rewrite concat_app. simpl. by rewrite app_nil_r.
Qed.

(** The run raises exactly when some non-blank line of the file makes
    [parse_token_line] raise: a line with ten columns or more that is no
    comment, has no "-" and no "." in its id, and whose id (or whose
    all-digit head) [int] does not accept.  One such line anywhere aborts
    the run before any row is written. *)
Theorem main_raises_iff ud lines :
  Pairs.main ud lines = Raised ↔
  ∃ ln, ln ∈ lines ∧ strip ln ≠ [] ∧ Pairs.parse_token_line ud ln = Raised.
Proof.
  unfold Pairs.main, Pairs.extract_rows.
  destruct (fold_left _ _ _) as [|[i1 rows1]] eqn:Hf; simpl.
  - split; [intros _|done].
    apply (fold_rows_step_Raised ud _ (1%Z, [])) in Hf as (sent & Hin & Hr).
    apply fold_token_step_Raised in Hr as (ln & Hln & Hp).
    exists ln. assert (Hc : ln ∈ concat (Pairs.read_conllu_sentences lines)).
    { apply elem_of_concat. by exists sent. }
    rewrite sentences_concat in Hc. apply list_elem_of_filter in Hc as [? ?]. done.
  - split; [done|]. intros (ln & Hin & Hnb & Hp).
    assert (Hc : ln ∈ concat (Pairs.read_conllu_sentences lines)).
    { rewrite sentences_concat. by apply list_elem_of_filter. }
    apply elem_of_concat in Hc as (sent & Hln & Hs).
    assert (Hr : fold_left (Pairs.rows_step ud) (Pairs.read_conllu_sentences lines)
                   (Ok (1%Z, [])) = Raised).
    { apply fold_rows_step_Raised. exists sent. split; [done|].
      apply fold_token_step_Raised. by exists ln. }
    congruence.
Qed.

Lemma fold_rows_step_Ok ud sents i0 rows0 i1 rows1 :
  fold_left (Pairs.rows_step ud) sents (Ok (i0, rows0)) = Ok (i1, rows1) ↔
  ∃ tokss,
    Forall2 (λ sent toks, Pairs.sentence_tokens ud sent = Ok toks) sents tokss
    ∧ i1 = (i0 + Z.of_nat (length sents))%Z
    ∧ rows1 = rows0
              ++ concat (imap (λ j toks, Pairs.sentence_rows (i0 + Z.of_nat j) toks) tokss).
Proof.
  revert i0 rows0. induction sents as [|sent sents IH]; intros i0 rows0; simpl.
  - split.
    + intros [= <- <-]. exists []. split_and!; [constructor|lia|by rewrite app_nil_r].
    + intros (tokss & HF & -> & ->). apply Forall2_nil_inv_l in HF as ->.
      simpl. rewrite app_nil_r. do 2 f_equal. lia.
  - destruct (Pairs.sentence_tokens ud sent) as [|toks] eqn:Ht; simpl.
    + rewrite fold_rows_step_raised. split; [done|].
      intros (tokss & HF & _). apply Forall2_cons_inv_l in HF as (t & ? & ? & _). congruence.
    + rewrite IH. split.
      * intros (tokss & HF & Hi & Hr). exists (toks :: tokss). split_and!.
        -- by constructor.
        -- lia.
        -- rewrite Hr, imap_cons. simpl. rewrite Z.add_0_r, <- app_assoc. do 3 f_equal.
           apply imap_ext. intros j t _. simpl. f_equal. lia.
      * intros (tokss & HF & Hi & Hr).
        apply Forall2_cons_inv_l in HF as (t & tokss' & Ht' & HF & ->).
        rewrite Ht in Ht'. injection Ht' as <-.
        exists tokss'. split_and!; [done|lia|].
        rewrite Hr, imap_cons. simpl. rewrite Z.add_0_r, <- app_assoc. do 3 f_equal.
        apply imap_ext. intros j t _. simpl. f_equal. lia.
Qed.

Lemma main_Ok ud lines rows :
  Pairs.main ud lines = Ok rows ↔
  ∃ tokss,
    Forall2 (λ sent toks, Pairs.sentence_tokens ud sent = Ok toks)
      (Pairs.read_conllu_sentences lines) tokss
    ∧ rows = concat (imap (λ j toks, Pairs.sentence_rows (1 + Z.of_nat j) toks) tokss).
Proof.
  unfold Pairs.main, Pairs.extract_rows.
  destruct (fold_left _ _ _) as [|[i1 rows1]] eqn:Hf; simpl.
  - split; [done|]. intros (tokss & HF & ->).
    assert (fold_left (Pairs.rows_step ud) (Pairs.read_conllu_sentences lines) (Ok (1%Z, []))
            = Ok ((1 + Z.of_nat (length (Pairs.read_conllu_sentences lines)))%Z,
                  [] ++ concat (imap (λ j toks, Pairs.sentence_rows (1 + Z.of_nat j) toks) tokss)))
      as Hf'.
    { apply fold_rows_step_Ok. by exists tokss. }
    congruence.
  - apply fold_rows_step_Ok in Hf as (tokss & HF & -> & ->). simpl. split.
    + intros [= <-]. by exists tokss.
    + intros (tokss' & HF' & ->). do 3 f_equal.
      clear -HF HF'. revert tokss tokss' HF HF'.
      induction (Pairs.read_conllu_sentences lines) as [|s ss IH]; intros t1 t2 H1 H2.
      * apply Forall2_nil_inv_l in H1 as ->. by apply Forall2_nil_inv_l in H2 as ->.
      * apply Forall2_cons_inv_l in H1 as (a & t1' & Ha & H1 & ->).
        apply Forall2_cons_inv_l in H2 as (b & t2' & Hb & H2 & ->).
        f_equal; [congruence|by apply IH].
Qed.

(** The rows of a run are the rows of its sentences, one sentence after
    the other in the order of the file, numbered from 1; within a sentence
    they follow the order in which the token ids first occurred; and the
    run succeeds exactly when every sentence yields its tokens. *)
Theorem main_rows_in_order ud lines rows :
  Pairs.main ud lines = Ok rows ↔
  ∃ tokss,
    Forall2 (λ sent toks, Pairs.sentence_tokens ud sent = Ok toks)
      (Pairs.read_conllu_sentences lines) tokss
    ∧ rows = concat (imap (λ j toks,
                        omap (λ '(dep_id, dep),
                                Pairs.pair_of (1 + Z.of_nat j) toks dep_id dep) toks)
                       tokss).
Proof. apply main_Ok. Qed.

(** Nothing is missed: in a run that does not raise, every token of a
    sentence whose relation is "MOD", that passes the adjective test and
    whose head id is the id of a token of the sentence that passes the
    noun-like test, has its row in the output. *)
Theorem main_complete ud lines rows j sent tokens dep_id dep head :
  Pairs.main ud lines = Ok rows →
  Pairs.read_conllu_sentences lines !! j = Some sent →
  Pairs.sentence_tokens ud sent = Ok tokens →
  (dep_id, dep) ∈ tokens →
  Pairs.t_deprel dep = lit "MOD" →
  Pairs.is_adj_token (Pairs.t_upos dep) (Pairs.t_xpos dep) (Pairs.t_misc dep) = true →
  dict_get (Pairs.t_head dep) tokens = Some head →
  Pairs.is_noun_like (Pairs.t_misc head) (Pairs.t_upos head) (Pairs.t_xpos head) = true →
  ∃ row, row ∈ rows
    ∧ Pairs.pair_of (1 + Z.of_nat j) tokens dep_id dep = Some row
    ∧ Pairs.sent_idx row = py_str_of_int (1 + Z.of_nat j)
    ∧ Pairs.adj_id row = py_str_of_int dep_id
    ∧ Pairs.head_id row = py_str_of_int (Pairs.t_head dep)
    ∧ Pairs.adj_form row = Pairs.t_form dep
    ∧ Pairs.head_form row = Pairs.t_form head.
Proof.
  intros Hmain Hj Htok Hdep Hmod Hadj Hhead Hnoun.
  apply main_Ok in Hmain as (tokss & HF & ->).
  destruct (Forall2_lookup_l _ _ _ _ _ HF Hj) as (toks & Htj & Ht).
  rewrite Htok in Ht. injection Ht as <-.
  assert (Hp : ∃ row, Pairs.pair_of (1 + Z.of_nat j) tokens dep_id dep = Some row).
  { unfold Pairs.pair_of. rewrite Hmod, bool_decide_eq_true_2 by done.
    rewrite Hadj, Hhead, Hnoun. simpl. eauto. }
  destruct Hp as [row Hp]. exists row.
  destruct (pair_of_Some _ _ _ _ _ Hp)
    as (_ & _ & head' & Hh' & _ & Hsi & Hai & Hhi & _ & Haf & Hhf).
  rewrite Hhead in Hh'. injection Hh' as <-.
  split_and!; [|done..].
  apply elem_of_concat. exists (Pairs.sentence_rows (1 + Z.of_nat j) tokens). split.
  - apply list_elem_of_omap. by exists (dep_id, dep).
  - apply list_elem_of_lookup. exists j. by rewrite list_lookup_imap, Htj.
Qed.

Lemma main_complete_witness :
  ∃ row, row ∈ [ex_row]
    ∧ Pairs.pair_of (1 + Z.of_nat 0)
        [(1%Z, Pairs.with_maps (ex_token 1 (lit "ABC") (lit "lemma1") (lit "NOM")
                                  (lit "gen=f|num=p|rat=i") 2 (lit "MOD") (lit "bw=ADJ")));
         (2%Z, Pairs.with_maps (ex_token 2 (lit "DEF") (lit "lemma2") (lit "NOM")
                                  (lit "_") 0 (lit "ROOT") (lit "bw=NOUN_head")))]
        1%Z
        (Pairs.with_maps (ex_token 1 (lit "ABC") (lit "lemma1") (lit "NOM")
                            (lit "gen=f|num=p|rat=i") 2 (lit "MOD") (lit "bw=ADJ")))
      = Some row
    ∧ Pairs.sent_idx row = py_str_of_int (1 + Z.of_nat 0)
    ∧ Pairs.adj_id row = py_str_of_int 1
    ∧ Pairs.head_id row = py_str_of_int 2
    ∧ Pairs.adj_form row = lit "ABC"
    ∧ Pairs.head_form row = lit "DEF".
Proof.
  refine (main_complete ascii_data [lit "# sent 1"; ex_adj_line; ex_noun_line] [ex_row] 0
            [lit "# sent 1"; ex_adj_line; ex_noun_line] _ 1%Z _
            (Pairs.with_maps (ex_token 2 (lit "DEF") (lit "lemma2") (lit "NOM")
                                (lit "_") 0 (lit "ROOT") (lit "bw=NOUN_head")))
            _ _ _ _ _ _ _ _);
    try (vm_compute; reflexivity).
  apply list_elem_of_here.
Defined.

(** A row can be checked from its own columns: its relation is "MOD", the
    MISC string of its dependent passes the adjective test and the MISC
    string of its head passes the noun-like test, whatever the two tag
    columns say. *)
Theorem rows_self_certifying ud lines rows row :
  Pairs.main ud lines = Ok rows →
  row ∈ rows →
  Pairs.deprel row = lit "MOD"
  ∧ (∀ upos xpos, Pairs.is_adj_token upos xpos (Pairs.parse_misc (Pairs.adj_misc row)) = true)
  ∧ (∀ upos xpos, Pairs.is_noun_like (Pairs.parse_misc (Pairs.head_misc row)) upos xpos = true).
Proof.
  unfold Pairs.main, Pairs.extract_rows. intros Hmain Hin.
  destruct (fold_left _ _ _) as [|[i1 rows1]] eqn:Hfold; [done|].
  simpl in Hmain. injection Hmain as ->.
  destruct (fold_rows_step_elem _ _ _ _ _ _ _ Hfold Hin)
    as [Hnil|(j & sent & tokens & Hj & Htok & Hrow)].
  { by apply elem_of_nil in Hnil. }
  apply list_elem_of_omap in Hrow as ([dep_id dep] & Hdep & Hpair).
  destruct (sentence_tokens_ok _ _ _ Htok) as [Hnd Hall].
  destruct (Hall _ _ Hdep) as (_ & _ & Hdm).
  unfold Pairs.pair_of in Hpair.
  case_bool_decide as Hmod; [|done]. cbn [negb] in Hpair.
  destruct (Pairs.is_adj_token _ _ (Pairs.t_misc dep)) eqn:Hadj; [|done].
  cbn [negb] in Hpair.
  destruct (dict_get (Pairs.t_head dep) tokens) as [head|] eqn:Hget; [|done].
  destruct (Pairs.is_noun_like (Pairs.t_misc head) _ _) eqn:Hnoun; [|done].
  cbn [negb] in Hpair. injection Hpair as <-. simpl.
  apply (dict_get_elem _ _ _ Hnd) in Hget. destruct (Hall _ _ Hget) as (_ & _ & Hhm).
  rewrite <- Hdm, <- Hhm. split_and!; [done|intros; exact Hadj|intros; exact Hnoun].
Qed.

Lemma rows_self_certifying_witness :
  Pairs.deprel ex_row = lit "MOD"
  ∧ (∀ upos xpos, Pairs.is_adj_token upos xpos (Pairs.parse_misc (Pairs.adj_misc ex_row)) = true)
  ∧ (∀ upos xpos, Pairs.is_noun_like (Pairs.parse_misc (Pairs.head_misc ex_row)) upos xpos = true).
Proof.
  apply (rows_self_certifying ascii_data [lit "# sent 1"; ex_adj_line; ex_noun_line] [ex_row]).
  - vm_compute. reflexivity.
  - apply list_elem_of_here.
Defined.

(** ** From the file the first script writes to the lines the second reads *)

Lemma is_linebreak_isspace c : is_linebreak c = true → isspace c = true.
Proof.
  unfold is_linebreak, isspace.
  rewrite !orb_true_iff, !andb_true_iff, !N.leb_le, !N.eqb_eq. lia.
Qed.

Lemma splitlines_line l rest :
  (∀ c, c ∈ l → is_linebreak c = false) →
  splitlines (l ++ 0x0A%N :: rest) = l :: splitlines rest.
Proof.
  induction l as [|c l IH]; intros Hl.
  - reflexivity.
  - assert (Hc : is_linebreak c = false) by (apply Hl, list_elem_of_here).
    assert (Hcr : N.eqb c 0x0D = false).
    { destruct (N.eqb_spec c 0x0D) as [->|]; [done|done]. }
    simpl. rewrite Hcr, Hc, IH; [done|].
    intros c' Hc'. by apply Hl, list_elem_of_further.
Qed.

Lemma splitlines_join lines :
  lines ≠ [] →
  Forall (λ l, ∀ c, c ∈ l → is_linebreak c = false) lines →
  splitlines (join [0x0A%N] lines ++ [0x0A%N]) = lines.
Proof.
  induction lines as [|l lines IH]; [done|]. intros _ Hall.
  inversion Hall as [|? ? Hl Hls]; subst.
  destruct lines as [|l' lines].
  - simpl. by rewrite splitlines_line.
  - rewrite join_cons2, <- !app_assoc. simpl app at 1.
    change ([10%N] ++ ?x) with (10%N :: x).
    rewrite splitlines_line by done. f_equal. by apply IH.
Qed.

Lemma splitlines_no_break text :
  Forall (λ l, ∀ c, c ∈ l → is_linebreak c = false) (splitlines text).
Proof.
  assert (H : ∀ n text, length text ≤ n →
                Forall (λ l, ∀ c, c ∈ l → is_linebreak c = false) (splitlines text));
    [|by apply (H (length text))].
  clear text. induction n as [|n IH]; intros [|c r] Hlen; simpl in *;
    try constructor; try lia.
  destruct (N.eqb c 13).
  { constructor; [by intros ? ?%elem_of_nil|].
    destruct r as [|c' r']; [constructor|].
    destruct (N.eqb c' 10); apply IH; simpl in *; lia. }
  destruct (is_linebreak c) eqn:Hc.
  { constructor; [by intros ? ?%elem_of_nil|]. apply IH. lia. }
  assert (Hr : Forall (λ l, ∀ c, c ∈ l → is_linebreak c = false) (splitlines r))
    by (apply IH; lia).
  destruct (splitlines r) as [|w ws].
  - constructor; [|constructor]. by intros c' ->%list_elem_of_singleton.
  - inversion Hr; subst. constructor; [|done].
    intros c' [->|?]%elem_of_cons; auto.
Qed.

Lemma has_char_join_none c sep parts :
  has_char c sep = false →
  Forall (λ p, has_char c p = false) parts →
  has_char c (join sep parts) = false.
Proof.
  intros Hsep. induction parts as [|p parts IH]; [done|].
  intros Hall. inversion Hall as [|? ? Hp Hps]; subst.
  destruct parts as [|q parts]; [done|].
  by rewrite join_cons2, !has_char_app, Hp, Hsep, IH.
Qed.

(** A whitespace character other than the tab that is in no input line and
    in no value of the lookup is in no output line. *)
Lemma line_out_has_char c lookup ln :
  isspace c = true → c ≠ tab →
  lookup_values (λ v, has_char c v = false) lookup →
  has_char c ln = false →
  has_char c (line_out lookup ln) = false.
Proof.
  intros Hsp Hct Hlv Hln. unfold line_out.
  destruct (line_changed lookup ln) eqn:Hch; [|done].
  destruct (line_changed_resolved _ _ Hch) as (key & g & n & r & Hres & _).
  pose proof (proj1 (resolved_Some _ _ _ _) Hres) as (_ & _ & Hlen & _ & _ & Hl).
  destruct (Hlv _ _ _ _ Hl) as (Hg & Hn & Hr).
  pose proof (split_on_has_char c tab ln Hln) as Hcols.
  assert (Hns : ∀ s, (∀ x, x ∈ s → isspace x = false) → has_char c s = false).
  { intros s Hs. apply has_char_false. intros Hin. specialize (Hs _ Hin). congruence. }
  assert (Hne : ∀ x, isspace x = false → c ≠ x) by (intros x Hx ->; congruence).
  apply has_char_join_none.
  { simpl. by rewrite (proj2 (N.eqb_neq _ _) Hct). }
  apply Forall_insert; [done|].
  apply has_char_format_feats; [by apply Hne..|].
  intros k v Hkv.
  assert (Hlit : ∀ s, s ∈ [lit "gen"; lit "num"; lit "rat"] → has_char c s = false).
  { intros s Hs. apply Hns. intros x Hx.
    repeat (apply elem_of_cons in Hs as [->|Hs];
            [vm_compute in Hx;
             repeat (apply elem_of_cons in Hx as [->|Hx]; [done|]);
             by apply elem_of_nil in Hx|]).
    by apply elem_of_nil in Hs. }
  destruct (synced_feats_entry _ _ _ _ _ _ _ _ Hres Hkv)
    as [[-> ->]|[[-> ->]|[[-> ->]|Hp]]].
  - split; [apply Hlit, list_elem_of_here|done].
  - split; [apply Hlit, list_elem_of_further, list_elem_of_here|done].
  - split; [apply Hlit; do 2 apply list_elem_of_further; apply list_elem_of_here|done].
  - eapply parse_feats_has_char; [|exact Hp].
    apply (Forall_lookup_total_1 _ _ _ Hcols). lia.
Qed.

Lemma sync_out_no_break ud magold_lines lines :
  Forall (λ l, ∀ c, c ∈ l → is_linebreak c = false) lines →
  Forall (λ l, ∀ c, c ∈ l → is_linebreak c = false)
    (Sync.out (Sync.sync_conllu_with_magold lines (Sync.build_magold_lookup ud magold_lines))).
Proof.
  intros Hall. set (lookup := Sync.build_magold_lookup ud magold_lines).
  destruct (sync_effect lookup lines) as (-> & _).
  apply Forall_fmap. eapply Forall_impl; [exact Hall|].
  intros ln Hln c Hc. simpl in *.
  destruct (is_linebreak c) eqn:Hb; [|done]. exfalso.
  assert (Hsp : isspace c = true) by by apply is_linebreak_isspace.
  assert (Hct : c ≠ tab) by (intros ->; by vm_compute in Hb).
  assert (Hno : has_char c (line_out lookup ln) = false).
  { apply line_out_has_char; [done..| |].
    - intros key g n r Hl.
      destruct (build_magold_lookup_no_space ud magold_lines key g n r Hl) as (Hg & Hn & Hr).
      split_and!; apply has_char_false; intros Hin;
        [specialize (Hg _ Hin)|specialize (Hn _ Hin)|specialize (Hr _ Hin)]; congruence.
    - apply has_char_false. intros Hin. specialize (Hln _ Hin). congruence. }
  apply has_char_false in Hno. done.
Qed.

(** The second script reads what the first one wrote: whatever the two
    input files hold, the first [main] writes the output lines joined by
    line feeds with one more at the end; when there is an output line at
    all, [splitlines] gives back exactly these lines, and in every case the
    pair extractor run on the written file does what it does on them. *)
Theorem written_file_reads_back ud conllu_text magold_text :
  let r := Sync.sync_conllu_with_magold (read_conllu_lines conllu_text)
             (Sync.build_magold_lookup ud (splitlines magold_text)) in
  let text := join [0x0A%N] (Sync.out r) ++ [0x0A%N] in
  (∃ run, sync_main ud (Some conllu_text) (Some magold_text) = inr run
          ∧ written run = text
          ∧ run_matched run = Sync.matched r ∧ run_updated run = Sync.updated r)
  ∧ (Sync.out r ≠ [] → read_conllu_lines text = Sync.out r)
  ∧ pairs_main ud (Some text) = Some (Pairs.main ud (Sync.out r)).
Proof.
  intros r text.
  assert (Hnb : Forall (λ l, ∀ c, c ∈ l → is_linebreak c = false) (Sync.out r)).
  { apply sync_out_no_break, splitlines_no_break. }
  assert (Hback : Sync.out r ≠ [] → splitlines text = Sync.out r).
  { intros Hne. by apply splitlines_join. }
  split_and!; [by eexists|done|].
  unfold pairs_main. f_equal.
  destruct (decide (Sync.out r = [])) as [He|Hne].
  - unfold text. rewrite He. reflexivity.
  - by rewrite Hback.
Qed.

Lemma written_file_reads_back_witness :
  read_conllu_lines
    (join [0x0A%N]
       (Sync.out (Sync.sync_conllu_with_magold
                    (read_conllu_lines (ex_line_stale ++ [0x0A%N]))
                    (Sync.build_magold_lookup ascii_data (splitlines ex_magold_line))))
     ++ [0x0A%N])
  = Sync.out (Sync.sync_conllu_with_magold
                (read_conllu_lines (ex_line_stale ++ [0x0A%N]))
                (Sync.build_magold_lookup ascii_data (splitlines ex_magold_line))).
Proof.
  apply (proj1 (proj2 (written_file_reads_back ascii_data (ex_line_stale ++ [0x0A%N])
                         ex_magold_line))).
  intros H. vm_compute in H. discriminate.
Defined.

(** ** The numbers in a row *)

Lemma int_digits_digit ud a b d acc :
  (d < 10)%N →
  int_digits ud a b ((48 + d)%N :: acc) = int_digits ud (10 * a + Z.of_N d)%Z true acc.
Proof.
  intros Hd. cbn [int_digits].
  assert (N.eqb (48 + d) underscore = false) as ->.
  { apply N.eqb_neq. unfold underscore. lia. }
  unfold decimal_value, is_ascii_digit.
  assert (N.ltb (48 + d) 128 = true) as -> by (apply N.ltb_lt; lia).
  assert (N.leb 48 (48 + d) = true) as -> by (apply N.leb_le; lia).
  assert (N.leb (48 + d) 57 = true) as -> by (apply N.leb_le; lia).
  simpl andb. cbv iota. f_equal. lia.
Qed.

Lemma int_digits_of_pos ud f n acc a b :
  (n < 10 ^ N.of_nat (S f))%N →
  ∃ k, (0 ≤ k)%Z
       ∧ int_digits ud a b (digits_of_pos (S f) n acc)
         = int_digits ud (a * 10 ^ k + Z.of_N n)%Z true acc.
Proof.
  revert n acc. induction f as [|f IH]; intros n acc Hn.
  - exists 1%Z. split; [lia|]. cbn [digits_of_pos].
    assert (n < 10)%N by (simpl in Hn; lia).
    rewrite (proj2 (N.ltb_lt n 10)) by done.
    rewrite N.mod_small by done. rewrite int_digits_digit by done. f_equal. lia.
  - change (digits_of_pos (S (S f)) n acc)
      with (if N.ltb n 10 then (48 + n mod 10)%N :: acc
            else digits_of_pos (S f) (n / 10) ((48 + n mod 10)%N :: acc)).
    destruct (N.ltb_spec n 10) as [Hs|Hb].
    + exists 1%Z. split; [lia|].
      rewrite N.mod_small by done. rewrite int_digits_digit by done. f_equal. lia.
    + assert (Hdiv : (n / 10 < 10 ^ N.of_nat (S f))%N).
      { apply N.Div0.div_lt_upper_bound.
        rewrite <- N.pow_succ_r'. by rewrite <- Nat2N.inj_succ. }
      destruct (IH (n / 10)%N ((48 + n mod 10)%N :: acc) Hdiv) as (k & Hk & E).
      exists (k + 1)%Z. split; [lia|]. rewrite E.
      rewrite int_digits_digit by (apply N.mod_lt; lia). f_equal.
      rewrite Z.pow_add_r by lia.
      pose proof (N.div_mod n 10 ltac:(lia)) as Hdm.
      rewrite N2Z.inj_div, N2Z.inj_mod. simpl Z.of_N.
      pose proof (Z.div_mod (Z.of_N n) 10 ltac:(lia)). lia.
Qed.

Lemma digits_of_pos_chars f n acc :
  Forall (λ c, int_space c = false) acc →
  Forall (λ c, int_space c = false) (digits_of_pos f n acc).
Proof.
  revert n acc. induction f as [|f IH]; intros n acc Hacc; [done|].
  cbn [digits_of_pos].
  assert (Hc : int_space (48 + n mod 10) = false).
  { pose proof (N.mod_lt n 10 ltac:(lia)) as H. revert H.
    generalize (n mod 10)%N. intros d H. unfold int_space.
    rewrite (proj2 (N.ltb_lt _ 127)) by lia.
    apply orb_false_iff. split; [apply andb_false_iff; right; apply N.leb_gt; lia|].
    apply N.eqb_neq. lia. }
  destruct (N.ltb n 10); [by constructor|]. apply IH. by constructor.
Qed.

Lemma digits_of_pos_head f n acc :
  ∃ c r, digits_of_pos (S f) n acc = c :: r ∧ (48 ≤ c ∧ c ≤ 57)%N.
Proof.
  revert n acc. induction f as [|f IH]; intros n acc.
  - cbn [digits_of_pos]. pose proof (N.mod_lt n 10 ltac:(lia)) as H. revert H.
    generalize (n mod 10)%N. intros d H.
    destruct (N.ltb n 10); eexists _, _; (split; [reflexivity|lia]).
  - change (digits_of_pos (S (S f)) n acc)
      with (if N.ltb n 10 then (48 + n mod 10)%N :: acc
            else digits_of_pos (S f) (n / 10) ((48 + n mod 10)%N :: acc)).
    pose proof (N.mod_lt n 10 ltac:(lia)) as H. revert H.
    generalize (n mod 10)%N at 1 2. intros d H.
    destruct (N.ltb n 10); [eexists _, _; (split; [reflexivity|lia])|apply IH].
Qed.

Lemma lstrip_by_id p s : Forall (λ c, p c = false) s → lstrip_by p s = s.
Proof. destruct 1 as [|c s Hc _]; simpl; [done|]. by rewrite Hc. Qed.

Lemma strip_by_id p s : Forall (λ c, p c = false) s → strip_by p s = s.
Proof.
  intros H. unfold strip_by. rewrite (lstrip_by_id p s) by done.
  rewrite lstrip_by_id; [apply rev_involutive|].
  apply Forall_forall. intros c Hc. rewrite Forall_forall in H. apply H.
  apply list_elem_of_In, in_rev. by apply list_elem_of_In.
Qed.

Lemma log2_fuel n : (n < 10 ^ N.of_nat (S (N.to_nat (N.log2 n))))%N.
Proof.
  rewrite Nat2N.inj_succ, N2Nat.id.
  destruct (N.eq_dec n 0%N) as [->|Hn]; [done|].
  pose proof (N.log2_spec n ltac:(lia)) as [_ Hlt].
  eapply N.lt_le_trans; [exact Hlt|].
  apply N.pow_le_mono_l. lia.
Qed.

(** [int] reads back what [str] writes. *)
Lemma py_int_str ud z : py_int ud (py_str_of_int z) = Some z.
Proof.
  assert (Hnat : ∀ n, py_int ud (digits_of_pos (S (N.to_nat (N.log2 n))) n []) = Some (Z.of_N n)).
  { intros n. unfold py_int.
    rewrite strip_by_id by (by apply digits_of_pos_chars).
    destruct (int_digits_of_pos ud (N.to_nat (N.log2 n)) n [] 0%Z false (log2_fuel n))
      as (k & _ & E).
    destruct (digits_of_pos_head (N.to_nat (N.log2 n)) n []) as (c & r & Ed & Hc).
    rewrite Ed in E |- *.
    assert (N.eqb c plus = false) as -> by (apply N.eqb_neq; unfold plus; lia).
    assert (N.eqb c dash = false) as -> by (apply N.eqb_neq; unfold dash; lia).
    rewrite E. simpl. done. }
  destruct z as [|p|p].
  - apply (Hnat 0%N).
  - apply (Hnat (N.pos p)).
  - unfold py_str_of_int, py_int.
    rewrite strip_by_id.
    + change (N.eqb dash plus) with false. change (N.eqb dash dash) with true. cbv iota.
      specialize (Hnat (N.pos p)). unfold py_int in Hnat.
      rewrite strip_by_id in Hnat by (by apply digits_of_pos_chars).
      destruct (digits_of_pos_head (N.to_nat (N.log2 (N.pos p))) (N.pos p) [])
        as (c & r & Ed & Hc).
      rewrite Ed in Hnat |- *.
      assert (N.eqb c plus = false) as Hp by (apply N.eqb_neq; unfold plus; lia).
      assert (N.eqb c dash = false) as Hd by (apply N.eqb_neq; unfold dash; lia).
      rewrite Hp, Hd in Hnat. rewrite Hnat. done.
    + constructor; [done|]. by apply digits_of_pos_chars.
Qed.

(** The three numeric columns of a row are decimal numbers that [int]
    reads back: the 1-based index of a sentence of the file, the id of a
    token of that sentence and the id under which the head is found in
    that sentence. *)
Theorem row_numbers_read_back ud lines rows row :
  Pairs.main ud lines = Ok rows →
  row ∈ rows →
  ∃ (j : nat) sent tokens dep_id dep head,
    Pairs.read_conllu_sentences lines !! j = Some sent
    ∧ Pairs.sentence_tokens ud sent = Ok tokens
    ∧ dict_get dep_id tokens = Some dep
    ∧ dict_get (Pairs.t_head dep) tokens = Some head
    ∧ py_int ud (Pairs.sent_idx row) = Some (1 + Z.of_nat j)%Z
    ∧ py_int ud (Pairs.adj_id row) = Some dep_id
    ∧ py_int ud (Pairs.head_id row) = Some (Pairs.t_id head).
Proof.
  unfold Pairs.main, Pairs.extract_rows. intros Hmain Hin.
  destruct (fold_left _ _ _) as [|[i1 rows1]] eqn:Hfold; [done|].
  simpl in Hmain. injection Hmain as ->.
  destruct (fold_rows_step_elem _ _ _ _ _ _ _ Hfold Hin)
    as [Hnil|(j & sent & tokens & Hj & Htok & Hrow)].
  { by apply elem_of_nil in Hnil. }
  apply list_elem_of_omap in Hrow as ([dep_id dep] & Hdep & Hpair).
  destruct (sentence_tokens_ok _ _ _ Htok) as [Hnd Hall].
  destruct (pair_of_Some _ _ _ _ _ Hpair)
    as (_ & _ & head & Hhead & _ & Hsi & Hai & Hhi & _).
  pose proof (proj2 (dict_get_elem _ _ _ Hnd) Hhead) as Hhe.
  destruct (Hall _ _ Hhe) as (Hid & _).
  exists j, sent, tokens, dep_id, dep, head.
  repeat split; [done|done|by apply dict_get_elem|done| | |].
  - rewrite Hsi. apply py_int_str.
  - rewrite Hai. apply py_int_str.
  - rewrite Hhi, Hid. apply py_int_str.
Qed.

Lemma row_numbers_read_back_witness :
  ∃ (j : nat) sent tokens dep_id dep head,
    Pairs.read_conllu_sentences [lit "# sent 1"; ex_adj_line; ex_noun_line] !! j = Some sent
    ∧ Pairs.sentence_tokens ascii_data sent = Ok tokens
    ∧ dict_get dep_id tokens = Some dep
    ∧ dict_get (Pairs.t_head dep) tokens = Some head
    ∧ py_int ascii_data (Pairs.sent_idx ex_row) = Some (1 + Z.of_nat j)%Z
    ∧ py_int ascii_data (Pairs.adj_id ex_row) = Some dep_id
    ∧ py_int ascii_data (Pairs.head_id ex_row) = Some (Pairs.t_id head).
Proof.
  apply (row_numbers_read_back ascii_data [lit "# sent 1"; ex_adj_line; ex_noun_line] [ex_row]).
  - vm_compute. reflexivity.
  - apply list_elem_of_here.
Defined.
